(** * SpeakHub voice-channel manager: a shallow embedding of [SpeakHub.py]

    The development follows the Python cog [VoiceManager] and the
    interaction handlers around it.  The in-memory dictionaries
    ([voice_channels], [cooldowns]) are finite maps, the three SQLite tables
    are lists of rows in insertion order, and the Discord guild is a record
    holding the cached channels and members.

    Conventions.
    - Ids are integers.  Clock readings are integers too: the event-loop
      clock in its own unit for the creation cooldown, microseconds for
      [datetime]; a handler reads its clock once.
    - A handler is a function from the state to the new state and the list
      of messages sent back on the interaction.  Text shown to the user is
      abstracted to one tag per message; names of channels and the
      contents of embeds are left out.
    - What the platform decides during a call (the id of a new channel,
      whether a move or a query goes through, where a member is after the
      debounce) is an explicit argument of the handler.  Calls whose
      failure no handler treats on its own are taken to succeed.
    - A [try]/[except] that logs and goes on is modelled by the state
      reached at the point of the exception. *)

From Stdlib Require Import ZArith List Bool String Ascii Lia.
From stdpp Require Import base option list gmap strings.
Import ListNotations.

Local Open Scope Z_scope.

(** ** Configuration ([DEFAULT_CONFIG]) *)

(** One permission overwrite of a channel: each right is granted
    ([Some true]), denied ([Some false]) or inherited ([None]). *)
Record PermissionOverwrite := mkOverwrite {
  connect : option bool;
  manage_channels : option bool;
  move_members : option bool;
  mute_members : option bool
}.

Record Config := mkConfig {
  create_voice_channel_id : Z;
  voice_category_id : Z;
  cooldown_time : Z;
  default_user_permissions : PermissionOverwrite
}.

Definition DEFAULT_CONFIG : Config :=
  {| create_voice_channel_id := 1350793212696072276;
     voice_category_id := 1350793002754375750;
     cooldown_time := 5;
     default_user_permissions :=
       mkOverwrite (Some true) (Some true) (Some true) (Some true) |}.

(** [timedelta(hours=2)], in microseconds, the resolution of [datetime]. *)
Definition invite_cooldown_duration : Z := 2 * 3600 * 1000000.

(** ** The persistent store *)

Module Db.

(** Row of [voice_channels]; [channel_id] is the primary key. *)
Record VoiceRow := mkVoiceRow {
  channel_id : Z;
  owner_id : Z;
  interface_message_id : option Z
}.

(** Row of [user_invites]; the autoincrement key is the position in the
    table.  [invited_at] is the ISO text of a [datetime], kept here as the
    microsecond count it denotes (the text order used by [ORDER BY] agrees
    with the numeric order). *)
Record InviteRow := mkInviteRow {
  inviter_id : Z;
  invited_user_id : Z;
  invited_at : Z;
  inv_channel_id : option Z
}.

Record t := mk {
  voice_channels : list VoiceRow;
  blocked_users : list (Z * Z);
  user_invites : list InviteRow
}.

Definition empty : t := mk [] [] [].

Definition has_channel (cid : Z) (r : VoiceRow) : bool := channel_id r =? cid.

(** [SELECT channel_id, owner_id FROM voice_channels] *)
Definition row_of (r : VoiceRow) : Z * Z := (channel_id r, owner_id r).

Definition select_channels (db : t) : list (Z * Z) :=
  row_of <$> voice_channels db.

(** [SELECT owner_id ... WHERE channel_id = ?], first row. *)
Definition select_owner (db : t) (cid : Z) : option Z :=
  owner_id <$> find (has_channel cid) (voice_channels db).

(** [SELECT interface_message_id ... WHERE channel_id = ?], [fetchone]. *)
Definition select_interface_message (db : t) (cid : Z) : option (option Z) :=
  interface_message_id <$> find (has_channel cid) (voice_channels db).

(** [INSERT INTO voice_channels (channel_id, owner_id)]: the primary key
    makes the statement raise [IntegrityError] ([None]) on a known id. *)
Definition insert_channel (db : t) (cid owner : Z) : option t :=
  if existsb (has_channel cid) (voice_channels db) then None
  else Some (mk (voice_channels db ++ [mkVoiceRow cid owner None])
                (blocked_users db) (user_invites db)).

(** [UPDATE voice_channels SET owner_id = ? WHERE channel_id = ?] *)
Definition update_owner (db : t) (owner cid : Z) : t :=
  mk ((fun r => if has_channel cid r
                then mkVoiceRow (channel_id r) owner (interface_message_id r)
                else r) <$> voice_channels db)
     (blocked_users db) (user_invites db).

(** [DELETE FROM voice_channels WHERE channel_id = ?] *)
Definition delete_channel (db : t) (cid : Z) : t :=
  mk (filter (fun r => channel_id r ≠ cid) (voice_channels db))
     (blocked_users db) (user_invites db).

(** [DELETE FROM blocked_users WHERE channel_id = ?] *)
Definition delete_blocked_of (db : t) (cid : Z) : t :=
  mk (voice_channels db)
     (filter (fun p => p.1 ≠ cid) (blocked_users db))
     (user_invites db).

(** [SELECT user_id FROM blocked_users WHERE channel_id = ?] *)
Definition select_blocked (db : t) (cid : Z) : list Z :=
  (filter (fun p => p.1 = cid) (blocked_users db)).*2.

(** [INSERT OR IGNORE INTO blocked_users] *)
Definition insert_or_ignore_blocked (db : t) (cid uid : Z) : t :=
  if bool_decide ((cid, uid) ∈ blocked_users db) then db
  else mk (voice_channels db) (blocked_users db ++ [(cid, uid)])
          (user_invites db).

(** [DELETE FROM blocked_users WHERE channel_id = ? AND user_id = ?] *)
Definition delete_blocked (db : t) (cid uid : Z) : t :=
  mk (voice_channels db)
     (filter (fun p => p ≠ (cid, uid)) (blocked_users db))
     (user_invites db).

(** The [WHERE] clause built by [check_invite_cooldown]: the channel
    condition is appended only when a channel id is given, and it never
    holds of a row whose channel is NULL. *)
Definition invite_matches (inviter invited : Z) (cid : option Z)
    (r : InviteRow) : bool :=
  (inviter_id r =? inviter) && (invited_user_id r =? invited) &&
  match cid with
  | None => true
  | Some c => match inv_channel_id r with
              | Some c' => c' =? c
              | None => false
              end
  end.

(** [ORDER BY invited_at DESC LIMIT 1] over a list of timestamps. *)
Fixpoint latest (ts : list Z) : option Z :=
  match ts with
  | [] => None
  | t0 :: rest => match latest rest with
                  | None => Some t0
                  | Some m => Some (Z.max t0 m)
                  end
  end.

Definition select_last_invite (db : t) (inviter invited : Z)
    (cid : option Z) : option Z :=
  latest (map invited_at
            (List.filter (invite_matches inviter invited cid) (user_invites db))).

(** [UNIQUE(inviter_id, invited_user_id, channel_id)]: two rows conflict
    when all three columns are equal and the channel is not NULL. *)
Definition invite_conflicts (inviter invited : Z) (cid : option Z)
    (r : InviteRow) : bool :=
  match cid, inv_channel_id r with
  | Some c, Some c' =>
      (inviter_id r =? inviter) && (invited_user_id r =? invited) && (c' =? c)
  | _, _ => false
  end.

(** [INSERT INTO user_invites (...)]: [None] is the [IntegrityError]
    raised by the UNIQUE constraint. *)
Definition insert_invite (db : t) (inviter invited at_ : Z)
    (cid : option Z) : option t :=
  if existsb (invite_conflicts inviter invited cid) (user_invites db) then None
  else Some (mk (voice_channels db) (blocked_users db)
                (user_invites db ++ [mkInviteRow inviter invited at_ cid])).

End Db.

(** ** The Discord guild, as cached by the client *)

Record VoiceChannel := mkVoiceChannel {
  user_limit : Z;
  overwrites : gmap Z PermissionOverwrite
}.

Record Member := mkMember {
  bot : bool;
  voice : option Z
}.

(** Overwrites are keyed by the id of their target, a member or a role; the
    default role of a guild is a role like any other. *)
Record Guild := mkGuild {
  default_role : Z;
  categories : gset Z;
  channels : gmap Z VoiceChannel;
  members : gmap Z Member
}.

Definition get_channel (g : Guild) (cid : Z) : option VoiceChannel :=
  channels g !! cid.

Definition get_member (g : Guild) (uid : Z) : option Member :=
  members g !! uid.

(** [member.voice.channel.id], when the member is connected. *)
Definition voice_channel_of (g : Guild) (uid : Z) : option Z :=
  m ← members g !! uid; voice m.

(** [PermissionOverwrite(connect=v)]: every other right is inherited. *)
Definition overwrite_connect (v : option bool) : PermissionOverwrite :=
  mkOverwrite v None None None.

(** [channel.set_permissions(target, **permissions)] builds a fresh
    overwrite from the keyword arguments and replaces the target's one. *)
Definition set_permissions (g : Guild) (cid target : Z)
    (ow : PermissionOverwrite) : Guild :=
  match channels g !! cid with
  | None => g
  | Some ch =>
      mkGuild (default_role g) (categories g)
        (<[cid := mkVoiceChannel (user_limit ch) (<[target := ow]> (overwrites ch))]>
           (channels g))
        (members g)
  end.

(** [channel.overwrites_for(target)]: an empty overwrite when none is set. *)
Definition overwrites_for (ch : VoiceChannel) (target : Z) : PermissionOverwrite :=
  default (mkOverwrite None None None None) (overwrites ch !! target).

(** [member.move_to(channel)] and [member.move_to(None)]. *)
Definition move_to (g : Guild) (uid : Z) (dest : option Z) : Guild :=
  match members g !! uid with
  | None => g
  | Some m =>
      mkGuild (default_role g) (categories g) (channels g)
        (<[uid := mkMember (bot m) dest]> (members g))
  end.

(** [channel.edit(user_limit=n)] *)
Definition edit_user_limit (g : Guild) (cid n : Z) : Guild :=
  match channels g !! cid with
  | None => g
  | Some ch =>
      mkGuild (default_role g) (categories g)
        (<[cid := mkVoiceChannel n (overwrites ch)]> (channels g))
        (members g)
  end.

(** [category.create_voice_channel(name, overwrites)], the platform having
    chosen [cid] for the new channel. *)
Definition create_channel (g : Guild) (cid : Z)
    (ows : gmap Z PermissionOverwrite) : Guild :=
  mkGuild (default_role g) (categories g)
    (<[cid := mkVoiceChannel 0 ows]> (channels g)) (members g).

(** [channel.delete()]: the channel is gone and the platform disconnects
    whoever was still connected to it. *)
Definition delete_channel (g : Guild) (cid : Z) : Guild :=
  mkGuild (default_role g) (categories g) (delete cid (channels g))
    ((λ m, if bool_decide (voice m = Some cid) then mkMember (bot m) None else m)
       <$> members g).

(** ** The cog and its world *)

(** [self.voice_channels], [self.cooldowns], [self.db_conn], [self.config],
    together with the guild the bot serves. *)
Record State := mkState {
  voice_channels : gmap Z Z;
  cooldowns : gmap Z Z;
  db_conn : Db.t;
  config : Config;
  guild : Guild
}.

Definition set_registry (s : State) (r : gmap Z Z) : State :=
  mkState r (cooldowns s) (db_conn s) (config s) (guild s).
Definition set_cooldowns (s : State) (c : gmap Z Z) : State :=
  mkState (voice_channels s) c (db_conn s) (config s) (guild s).
Definition set_db (s : State) (db : Db.t) : State :=
  mkState (voice_channels s) (cooldowns s) db (config s) (guild s).
Definition set_guild (s : State) (g : Guild) : State :=
  mkState (voice_channels s) (cooldowns s) (db_conn s) (config s) g.

(** ** [VoiceManager] *)

(** [check_invite_cooldown].  [query_ok = false] is a run in which the
    query raises: the handler logs and answers [False]. *)
Definition check_invite_cooldown (s : State) (query_ok : bool) (now : Z)
    (inviter invited : Z) (cid : option Z) : bool :=
  if query_ok then
    match Db.select_last_invite (db_conn s) inviter invited cid with
    | Some last_invite_time =>
        bool_decide (now - last_invite_time < invite_cooldown_duration)
    | None => false
    end
  else false.

(** [save_invite_timestamp]: an error of the insertion is logged and
    swallowed. *)
Definition save_invite_timestamp (s : State) (now : Z)
    (inviter invited : Z) (cid : option Z) : State :=
  match Db.insert_invite (db_conn s) inviter invited now cid with
  | Some db' => set_db s db'
  | None => s
  end.

(** One turn of the loop of [load_voice_channels]. *)
Definition load_step (g : Guild) (acc : Db.t * gmap Z Z) (row : Z * Z)
    : Db.t * gmap Z Z :=
  let '(cid, owner) := row in
  match get_channel g cid with
  | None => (Db.delete_blocked_of (Db.delete_channel acc.1 cid) cid, acc.2)
  | Some _ => (acc.1, <[cid := owner]> acc.2)
  end.

(** [load_voice_channels]: the rows are fetched once, then visited in
    order. *)
Definition load_voice_channels (s : State) : State :=
  let rows := Db.select_channels (db_conn s) in
  let '(db', reg') :=
    foldl (load_step (guild s)) (db_conn s, voice_channels s) rows in
  set_registry (set_db s db') reg'.

(** [is_on_cooldown]: the clock is read once per call. *)
Definition is_on_cooldown (s : State) (user_id now : Z) : bool * State :=
  match cooldowns s !! user_id with
  | Some last =>
      if bool_decide (now - last < cooldown_time (config s)) then (true, s)
      else (false, set_cooldowns s (<[user_id := now]> (cooldowns s)))
  | None => (false, set_cooldowns s (<[user_id := now]> (cooldowns s)))
  end.

(** Outcome of the two platform calls of [create_voice_channel]: the id of
    the channel the platform created, if the call returned, and whether
    the move of the member then went through. *)
Record CreateOutcome := mkCreateOutcome {
  created : option Z;
  move_ok : bool
}.

(** [create_voice_channel]: one [try] block around the whole body, an
    exception at any step skips the steps after it. *)
Definition create_voice_channel (s : State) (member : Z) (o : CreateOutcome)
    : State :=
  if bool_decide (voice_category_id (config s) ∈ categories (guild s)) then
    match created o with
    | None => s
    | Some new_channel =>
        let ows : gmap Z PermissionOverwrite :=
          <[member := default_user_permissions (config s)]>
            {[ default_role (guild s) := overwrite_connect (Some true) ]} in
        let s1 := set_guild s (create_channel (guild s) new_channel ows) in
        if move_ok o then
          let s2 := set_guild s1 (move_to (guild s1) member (Some new_channel)) in
          match Db.insert_channel (db_conn s2) new_channel member with
          | None => s2
          | Some db' =>
              set_registry (set_db s2 db')
                (<[new_channel := member]> (voice_channels s2))
          end
        else s1
    end
  else s.

(** [delete_voice_channel] *)
Definition delete_voice_channel (s : State) (cid : Z) : State :=
  let db' := Db.delete_blocked_of (Db.delete_channel (db_conn s) cid) cid in
  let s1 := set_registry (set_db s db') (delete cid (voice_channels s)) in
  set_guild s1 (delete_channel (guild s1) cid).

(** A voice-state event: the member, and the channel before and after. *)
Record VoiceEvent := mkVoiceEvent {
  ev_member : Z;
  ev_bot : bool;
  ev_before : option Z;
  ev_after : option Z
}.

(** What the handler observes while it runs: the clock, the outcome of a
    creation, and [member.voice] once the half second of debounce is over. *)
Record Observed := mkObserved {
  obs_now : Z;
  obs_create : CreateOutcome;
  obs_voice_later : option Z
}.

(** [on_voice_state_update] *)
Definition on_voice_state_update (s : State) (ev : VoiceEvent) (o : Observed)
    : State :=
  if ev_bot ev then s
  else if bool_decide (ev_after ev = Some (create_voice_channel_id (config s))) then
    let '(on_cd, s1) := is_on_cooldown s (ev_member ev) (obs_now o) in
    if on_cd then s1
    else create_voice_channel s1 (ev_member ev) (obs_create o)
  else
    match ev_before ev with
    | Some before =>
        match voice_channels s !! before with
        | Some owner =>
            if bool_decide (owner = ev_member ev) then
              if bool_decide (obs_voice_later o ≠ Some before)
              then delete_voice_channel s before
              else s
            else s
        | None => s
        end
    | None => s
    end.

(** [is_channel_owner] *)
Definition is_channel_owner (s : State) (user_id channel_id : Z) : bool :=
  bool_decide (voice_channels s !! channel_id = Some user_id).

(** [get_blocked_users] *)
Definition get_blocked_users (s : State) (channel_id : Z) : list Z :=
  Db.select_blocked (db_conn s) channel_id.

(** [block_user] *)
Definition block_user (s : State) (channel_id user_id : Z) : State :=
  let s1 := set_db s (Db.insert_or_ignore_blocked (db_conn s) channel_id user_id) in
  match get_channel (guild s1) channel_id, get_member (guild s1) user_id with
  | Some _, Some _ =>
      let g1 := set_permissions (guild s1) channel_id user_id
                  (overwrite_connect (Some false)) in
      if bool_decide (voice_channel_of g1 user_id = Some channel_id)
      then set_guild s1 (move_to g1 user_id None)
      else set_guild s1 g1
  | _, _ => s1
  end.

(** [unblock_user] *)
Definition unblock_user (s : State) (channel_id user_id : Z) : State :=
  let s1 := set_db s (Db.delete_blocked (db_conn s) channel_id user_id) in
  match get_channel (guild s1) channel_id, get_member (guild s1) user_id with
  | Some _, Some _ =>
      set_guild s1 (set_permissions (guild s1) channel_id user_id
                      (overwrite_connect (Some true)))
  | _, _ => s1
  end.

(** ** The control surface: buttons, modals and select menus *)

(** [int(text)] of Python on ASCII text: surrounding white space (tab,
    line feed, vertical tab, form feed, carriage return, space) is dropped,
    one sign is allowed, and digits may be grouped by single underscores.
    [None] stands for [ValueError].  [int] also reads the decimal digits and
    the white space of Unicode beyond ASCII; such text is outside this
    model, and the statements that speak of every text are about ASCII
    text. *)
Module PyInt.

Definition code (a : ascii) : Z := Z.of_nat (nat_of_ascii a).

Definition is_space (a : ascii) : bool :=
  ((9 <=? code a) && (code a <=? 13)) || (code a =? 32).

Definition digit_of (a : ascii) : option Z :=
  if (48 <=? code a) && (code a <=? 57) then Some (code a - 48) else None.

Fixpoint lstrip (l : list ascii) : list ascii :=
  match l with
  | a :: r => if is_space a then lstrip r else l
  | [] => []
  end.

Definition strip (l : list ascii) : list ascii :=
  rev (lstrip (rev (lstrip l))).

Fixpoint digits (acc : Z) (after_digit : bool) (l : list ascii) : option Z :=
  match l with
  | [] => if after_digit then Some acc else None
  | a :: r =>
      if code a =? 95 then
        if after_digit then digits acc false r else None
      else
        match digit_of a with
        | Some d => digits (10 * acc + d) true r
        | None => None
        end
  end.

Definition int (text : string) : option Z :=
  match strip (list_ascii_of_string text) with
  | a :: r =>
      if code a =? 45 then Z.opp <$> digits 0 false r
      else if code a =? 43 then digits 0 false r
      else digits 0 false (a :: r)
  | [] => None
  end.

End PyInt.

Inductive ButtonKind := Limit | Kick | Lock | Invite | Transfer | Name | Block.

Inductive Action := ActKick | ActTransfer.

(** What is sent back on the interaction, one tag per embed, modal or
    view of the source. *)
Inductive Response :=
| MustBeInVoice
| NotManaged
| NotOwner
| ChannelGone
| OpenLimitModal (channel_id : Z)
| OpenInviteModal (channel_id : Z)
| OpenRenameModal (channel_id : Z)
| OpenMemberSelect (channel_id : Z) (choices : list Z) (act : Action)
| OpenBlockView (channel_id : Z) (blocked : list Z)
| NoOtherMembers
| ChannelLocked
| ChannelUnlocked
| EnterValidNumber
| ChannelNoLongerExists
| LimitRemoved
| LimitSet (n : Z)
| UserNotFound
| CannotInviteSelf
| InviteCooldown
| UserIsBlocked
| InviteSucceeded
| NotInYourChannel
| CannotBlockSelf.

(** Value returned by [VoiceChannelButton.callback]: [False], or the id of
    the channel. *)
Inductive Checked := Refused | Cleared (channel_id : Z).

(** [if not channel_id: return] in the subclasses. *)
Definition truthy (c : Checked) : option Z :=
  match c with
  | Refused => None
  | Cleared cid => if cid =? 0 then None else Some cid
  end.

(** [VoiceChannelButton.callback] *)
Definition callback (s : State) (user : Z) : Checked * list Response :=
  match voice_channel_of (guild s) user with
  | None => (Refused, [MustBeInVoice])
  | Some channel_id =>
      if bool_decide (voice_channels s !! channel_id = None)
      then (Refused, [NotManaged])
      else if negb (is_channel_owner s user channel_id)
      then (Refused, [NotOwner])
      else match get_channel (guild s) channel_id with
           | None => (Refused, [ChannelGone])
           | Some _ => (Cleared channel_id, [])
           end
  end.

(** [channel.members], less the acting user. *)
Definition other_members (g : Guild) (cid user : Z) : list Z :=
  (filter (fun p => voice p.2 = Some cid ∧ p.1 ≠ user)
          (map_to_list (members g))).*1.

(** [LockChannelButton.callback], past the checks. *)
Definition toggle_lock (s : State) (cid : Z) : State * list Response :=
  match get_channel (guild s) cid with
  | None => (s, [])
  | Some ch =>
      let current_state := connect (overwrites_for ch (default_role (guild s))) in
      let new_state :=
        if bool_decide (current_state = Some false) then None else Some false in
      (set_guild s (set_permissions (guild s) cid (default_role (guild s))
                      (overwrite_connect new_state)),
       [if bool_decide (new_state = Some false)
        then ChannelLocked else ChannelUnlocked])
  end.

(** The [callback] of the seven buttons: the common checks, then the
    body of the subclass. *)
Definition press (b : ButtonKind) (s : State) (user : Z) : State * list Response :=
  let '(res, sent) := callback s user in
  match truthy res with
  | None => (s, sent)
  | Some cid =>
      match b with
      | Limit => (s, sent ++ [OpenLimitModal cid])
      | Invite => (s, sent ++ [OpenInviteModal cid])
      | Name => (s, sent ++ [OpenRenameModal cid])
      | Kick =>
          match other_members (guild s) cid user with
          | [] => (s, sent ++ [NoOtherMembers])
          | ms => (s, sent ++ [OpenMemberSelect cid ms ActKick])
          end
      | Transfer =>
          match other_members (guild s) cid user with
          | [] => (s, sent ++ [NoOtherMembers])
          | ms => (s, sent ++ [OpenMemberSelect cid ms ActTransfer])
          end
      | Block => (s, sent ++ [OpenBlockView cid (get_blocked_users s cid)])
      | Lock =>
          let '(s', out) := toggle_lock s cid in (s', sent ++ out)
      end
  end.

(** [LimitMembersModal.on_submit].  In the out-of-range branch the source
    builds an embed and returns: nothing is sent. *)
Definition LimitMembersModal_on_submit (s : State) (channel_id : Z)
    (text : string) : State * list Response :=
  match PyInt.int text with
  | None => (s, [EnterValidNumber])
  | Some limit_value =>
      if bool_decide (limit_value < 0 ∨ limit_value > 99) then (s, [])
      else
        match get_channel (guild s) channel_id with
        | None => (s, [ChannelNoLongerExists])
        | Some _ =>
            let user_limit := if limit_value =? 0 then 0 else limit_value in
            (set_guild s (edit_user_limit (guild s) channel_id user_limit),
             [if user_limit =? 0 then LimitRemoved else LimitSet user_limit])
        end
  end.

(** What [InviteUserModal.on_submit] observes: the wall clock, and whether
    the query of the rate-limit check went through. *)
Record InviteObserved := mkInviteObserved {
  inv_now : Z;
  inv_query_ok : bool
}.

(** [InviteUserModal.on_submit], from the point where the typed text has
    been resolved to a member ([target], [None] when nobody matches). *)
Definition InviteUserModal_on_submit (s : State) (channel_id actor : Z)
    (target : option Z) (o : InviteObserved) : State * list Response :=
  match target with
  | None => (s, [UserNotFound])
  | Some user =>
      if bool_decide (user = actor) then (s, [CannotInviteSelf])
      else if check_invite_cooldown s (inv_query_ok o) (inv_now o)
                actor user (Some channel_id)
      then (s, [InviteCooldown])
      else
        match get_channel (guild s) channel_id with
        | None => (s, [ChannelNoLongerExists])
        | Some _ =>
            if bool_decide (user ∈ get_blocked_users s channel_id)
            then (s, [UserIsBlocked])
            else
              let s1 := set_guild s (set_permissions (guild s) channel_id user
                                       (overwrite_connect (Some true))) in
              (save_invite_timestamp s1 (inv_now o) actor user (Some channel_id),
               [InviteSucceeded])
        end
  end.

(** [MemberSelectView.select_callback]: [actor] is [interaction.user],
    [selected_id] the chosen entry of the menu. *)
Definition MemberSelectView_select_callback (s : State) (channel_id : Z)
    (action_type : Action) (actor selected_id : Z) : State * list Response :=
  match get_channel (guild s) channel_id, get_member (guild s) selected_id with
  | Some _, Some member =>
      match action_type with
      | ActKick =>
          if bool_decide (voice member = Some channel_id)
          then (set_guild s (move_to (guild s) selected_id None), [])
          else (s, [NotInYourChannel])
      | ActTransfer =>
          let g1 := set_permissions (guild s) channel_id selected_id
                      (mkOverwrite (Some true) (Some true) (Some true) (Some true)) in
          let g2 := set_permissions g1 channel_id actor
                      (overwrite_connect (Some true)) in
          let s1 := set_db (set_guild s g2)
                      (Db.update_owner (db_conn s) selected_id channel_id) in
          (set_registry s1 (<[channel_id := selected_id]> (voice_channels s1)), [])
      end
  | _, _ => (s, [])
  end.

(** [BlockUserModal.on_submit], from the resolved member on. *)
Definition BlockUserModal_on_submit (s : State) (channel_id actor : Z)
    (target : option Z) : State * list Response :=
  match target with
  | None => (s, [UserNotFound])
  | Some user =>
      if bool_decide (user = actor) then (s, [CannotBlockSelf])
      else (block_user s channel_id user, [])
  end.

(** [UnblockUserView.select_callback] *)
Definition UnblockUserView_select_callback (s : State) (channel_id selected_id : Z)
    : State * list Response :=
  (unblock_user s channel_id selected_id, []).

(** ** Sample states used by the closed examples *)

Definition guild0 : Guild :=
  {| default_role := 1;
     categories := {[ voice_category_id DEFAULT_CONFIG ]};
     channels := {[ 100 := mkVoiceChannel 0 ∅ ]};
     members := {[ 10 := mkMember false (Some 100);
                   11 := mkMember false (Some 100);
                   12 := mkMember false None ]} |}.

Definition db0 : Db.t :=
  Db.mk [Db.mkVoiceRow 100 10 None] [] [].

Definition state0 : State :=
  {| voice_channels := {[ 100 := 10 ]};
     cooldowns := {[ 10 := 0 ]};
     db_conn := db0;
     config := DEFAULT_CONFIG;
     guild := guild0 |}.

(** A state whose registry and store still know channel 100 although the
    guild has lost it. *)
Definition state_stale : State :=
  {| voice_channels := {[ 100 := 10 ]};
     cooldowns := ∅;
     db_conn := Db.mk [Db.mkVoiceRow 100 10 None] [(100, 12)] [];
     config := DEFAULT_CONFIG;
     guild := mkGuild 1 ∅ ∅ {[ 10 := mkMember false None ]} |}.

(** Member 10 invited member 11 into channel 100 at time 0. *)
Definition state_invited : State :=
  set_db state0
    (Db.mk [Db.mkVoiceRow 100 10 None] [] [Db.mkInviteRow 10 11 0 (Some 100)]).

Definition one_hour : Z := 3600 * 1000000.

(** ** Observations on a state *)

(** The connect right a target holds on a channel through its own
    overwrite. *)
Definition connect_of (g : Guild) (cid target : Z) : option bool :=
  ch ← get_channel g cid; connect (overwrites_for ch target).

(** The stored rows and blocked-user rows of one channel. *)
Definition rows_of (db : Db.t) (cid : Z) : list Db.VoiceRow :=
  filter (λ r, Db.channel_id r = cid) (Db.voice_channels db).

Definition blocked_of (db : Db.t) (cid : Z) : list (Z * Z) :=
  filter (λ p, p.1 = cid) (Db.blocked_users db).

(** ** Auxiliary notions used to describe a reconciliation pass *)

(** The registry part of a pass: one assignment per row of a live
    channel. *)
Definition assign (reg : gmap Z Z) (row : Z * Z) : gmap Z Z :=
  <[row.1 := row.2]> reg.

Definition live (g : Guild) (row : Z * Z) : Prop :=
  is_Some (get_channel g row.1).

(** Ids of the rows whose channel the platform no longer has. *)
Definition gone_ids (g : Guild) (rows : list (Z * Z)) : list Z :=
  (filter (λ row, ¬ live g row) rows).*1.

(** ** Notions used by the further properties *)

(** Every registry entry is backed by a stored row naming the same owner. *)
Definition registry_backed (s : State) : Prop :=
  ∀ cid owner, voice_channels s !! cid = Some owner →
               Db.select_owner (db_conn s) cid = Some owner.

(** A channel is locked when the default role is denied the connect
    right on it. *)
Definition locked (g : Guild) (cid : Z) : Prop :=
  connect_of g cid (default_role g) = Some false.

(** The overwrite a target holds on a channel, as [overwrites_for] reads
    it. *)
Definition overwrite_of (g : Guild) (cid target : Z) : option PermissionOverwrite :=
  (λ ch, overwrites_for ch target) <$> get_channel g cid.

(** Text made of ASCII characters only. *)
Definition ascii_text (text : string) : Prop :=
  Forall (λ a, PyInt.code a < 128) (list_ascii_of_string text).

(** ** Configuration file ([load_config]) *)

Module JsonConfig.

(** A value read by [json.load]; a Python dictionary is a finite map. *)
Inductive Json :=
| JNull
| JBool (b : bool)
| JInt (n : Z)
| JStr (s : string)
| JList (l : list Json)
| JDict (d : gmap string Json).

(** What [load_config] finds at [CONFIG_PATH]: no file, a file that
    cannot be read as JSON, or a value. *)
Inductive ConfigFile :=
| NoFile
| Unreadable
| Parsed (j : Json).

(** One turn of the loop over [config.items()].  [merged_config] is a
    shallow copy of [DEFAULT_CONFIG]: a nested dictionary is the same
    object in both, so [merged_config[key].update(value)] changes
    [DEFAULT_CONFIG] as well, while [merged_config[key] = value] changes the
    copy alone.  The accumulator is the pair of the copy and the global. *)
Definition merge_step (key : string) (value : Json)
    (acc : gmap string Json * gmap string Json)
    : gmap string Json * gmap string Json :=
  match value, acc.1 !! key with
  | JDict v, Some (JDict m) =>
      (<[key := JDict (v ∪ m)]> acc.1, <[key := JDict (v ∪ m)]> acc.2)
  | _, _ => (<[key := value]> acc.1, acc.2)
  end.

(** Result of a call: the dictionary returned, [DEFAULT_CONFIG] after the
    call, and whether the file was written. *)
Record Loaded := mkLoaded {
  returned : gmap string Json;
  defaults_after : gmap string Json;
  file_written : bool
}.

(** [load_config], [defaults] being [DEFAULT_CONFIG] at the time of the
    call.  A value that is not a dictionary has no [items] and ends in the
    [except] clause. *)
Definition load_config (defaults : gmap string Json) (file : ConfigFile)
    : Loaded :=
  match file with
  | NoFile => mkLoaded defaults defaults true
  | Unreadable => mkLoaded defaults defaults false
  | Parsed (JDict config) =>
      let acc := map_fold merge_step (defaults, defaults) config in
      mkLoaded acc.1 acc.2 false
  | Parsed _ => mkLoaded defaults defaults false
  end.

(** The entry of [key] in the returned dictionary, from the entry of the
    file and the default one. *)
Definition merged_entry (from_file from_defaults : option Json) : option Json :=
  match from_file with
  | Some (JDict v) =>
      match from_defaults with
      | Some (JDict m) => Some (JDict (v ∪ m))
      | _ => Some (JDict v)
      end
  | Some x => Some x
  | None => from_defaults
  end.

(** The entry of [key] in [DEFAULT_CONFIG] after the call. *)
Definition default_entry_after (from_file from_defaults : option Json)
    : option Json :=
  match from_file, from_defaults with
  | Some (JDict v), Some (JDict m) => Some (JDict (v ∪ m))
  | _, _ => from_defaults
  end.

(** A default with a plain entry and a nested section, and a file that
    overrides the entry and one key of the section. *)
Definition sample_defaults : gmap string Json :=
  {[ "cooldown_time" := JInt 5;
     "interface" := JDict {[ "title" := JStr "Voice"; "color" := JStr "blurple" ]} ]}.

Definition sample_file : ConfigFile :=
  Parsed (JDict {[ "cooldown_time" := JInt 9;
                   "interface" := JDict {[ "color" := JStr "red" ]} ]}).

End JsonConfig.

(** * Properties *)

(** ** Cooldown tracker *)

Section Cooldown.
Variable s : State.
Variable actor : Z.

Lemma is_on_cooldown_first now :
  cooldowns s !! actor = None →
  is_on_cooldown s actor now
    = (false, set_cooldowns s (<[actor := now]> (cooldowns s))).
Proof. intros H. unfold is_on_cooldown. by rewrite H. Qed.

Lemma is_on_cooldown_elapsed now last :
  cooldowns s !! actor = Some last →
  cooldown_time (config s) ≤ now - last →
  is_on_cooldown s actor now
    = (false, set_cooldowns s (<[actor := now]> (cooldowns s))).
Proof.
  intros H Hle. unfold is_on_cooldown. rewrite H.
  rewrite bool_decide_eq_false_2; [done | lia].
Qed.

Lemma is_on_cooldown_denied now last :
  cooldowns s !! actor = Some last →
  now - last < cooldown_time (config s) →
  is_on_cooldown s actor now = (true, s).
Proof.
  intros H Hlt. unfold is_on_cooldown. rewrite H.
  by rewrite bool_decide_eq_true_2.
Qed.

Lemma is_on_cooldown_admitted_stamp now s' :
  is_on_cooldown s actor now = (false, s') →
  cooldowns s' !! actor = Some now.
Proof.
  unfold is_on_cooldown. destruct (cooldowns s !! actor) as [last|].
  - case_bool_decide; intros [= <-]. simpl. apply lookup_insert_eq.
  - intros [= <-]. simpl. apply lookup_insert_eq.
Qed.

Lemma is_on_cooldown_denied_same now s' :
  is_on_cooldown s actor now = (true, s') → s' = s.
Proof.
  unfold is_on_cooldown. destruct (cooldowns s !! actor) as [last|].
  - case_bool_decide; by intros [= <-].
  - by intros [= <-].
Qed.
End Cooldown.

(** C4, as stated, fails on the boundary: with a last attempt at 0 and the
    default cooldown of 5, an attempt at 5 has an elapsed time that does
    not exceed the cooldown, and yet it is admitted and stamped. *)
Lemma C4_boundary_counterexample :
  cooldowns state0 !! 10 = Some 0 ∧
  ¬ (5 - 0 > cooldown_time (config state0)) ∧
  (is_on_cooldown state0 10 5).1 = false ∧
  cooldowns (is_on_cooldown state0 10 5).2 !! 10 = Some 5.
Proof. repeat split; vm_compute; congruence. Qed.

(** C4 (amended): an actor with no prior admitted attempt, or whose last
    admitted attempt is at least the configured cooldown old, is admitted
    and stamped with the current time; otherwise the attempt is denied and
    the state is left as it was.  Hence of two attempts less than one
    cooldown apart at most one is admitted, and an attempt made a full
    cooldown after an admitted one is admitted. *)
Theorem C4_cooldown_admission (s : State) (actor : Z) :
  (∀ now,
     (cooldowns s !! actor = None ∨
      ∃ last, cooldowns s !! actor = Some last ∧
              cooldown_time (config s) ≤ now - last) →
     is_on_cooldown s actor now
       = (false, set_cooldowns s (<[actor := now]> (cooldowns s)))) ∧
  (∀ now last,
     cooldowns s !! actor = Some last →
     now - last < cooldown_time (config s) →
     is_on_cooldown s actor now = (true, s)) ∧
  (∀ t1 t2,
     t2 - t1 < cooldown_time (config s) →
     ¬ ((is_on_cooldown s actor t1).1 = false ∧
        (is_on_cooldown (is_on_cooldown s actor t1).2 actor t2).1 = false)) ∧
  (∀ t1 t2,
     (is_on_cooldown s actor t1).1 = false →
     cooldown_time (config s) ≤ t2 - t1 →
     (is_on_cooldown (is_on_cooldown s actor t1).2 actor t2).1 = false).
Proof.
  split; [|split; [|split]].
  - intros now [Hnone | (last & Hlast & Hle)].
    + by apply is_on_cooldown_first.
    + by eapply is_on_cooldown_elapsed.
  - intros now last. apply is_on_cooldown_denied.
  - intros t1 t2 Hlt [H1 H2].
    destruct (is_on_cooldown s actor t1) as [b s1] eqn:E1.
    simpl in H1, H2. subst b.
    pose proof (is_on_cooldown_admitted_stamp _ _ _ _ E1) as Hst.
    assert (config s1 = config s) as Hc.
    { revert E1. unfold is_on_cooldown.
      destruct (cooldowns s !! actor); [case_bool_decide|]; by intros [= <-]. }
    rewrite (is_on_cooldown_denied s1 actor t2 t1) in H2; [done | done |].
    by rewrite Hc.
  - intros t1 t2 H1 Hle.
    destruct (is_on_cooldown s actor t1) as [b s1] eqn:E1.
    simpl in H1. subst b. simpl.
    pose proof (is_on_cooldown_admitted_stamp _ _ _ _ E1) as Hst.
    assert (config s1 = config s) as Hc.
    { revert E1. unfold is_on_cooldown.
      destruct (cooldowns s !! actor); [case_bool_decide|]; by intros [= <-]. }
    rewrite (is_on_cooldown_elapsed s1 actor t2 t1); [done | done |].
    by rewrite Hc.
Qed.

Lemma C4_cooldown_admission_witness :
  is_on_cooldown state0 10 3 = (true, state0) ∧
  (is_on_cooldown state0 10 5).1 = false.
Proof.
  destruct (C4_cooldown_admission state0 10) as (Hadm & Hden & _ & _).
  split.
  - apply (Hden 3 0); [reflexivity | vm_compute; reflexivity].
  - rewrite (Hadm 5); [reflexivity |].
    right. exists 0. split; [reflexivity | vm_compute; congruence].
Defined.

(** ** Lifecycle reconciler *)

Section ListFacts.
Context {A B : Type}.

Lemma filter_ext_elem (P Q : A → Prop) `{!∀ x, Decision (P x)}
    `{!∀ x, Decision (Q x)} (l : list A) :
  (∀ x, x ∈ l → P x ↔ Q x) → filter P l = filter Q l.
Proof.
  induction l as [|a l IH]; intros Hext; [done|].
  rewrite !filter_cons.
  rewrite IH by (intros x Hx; apply Hext; by right).
  pose proof (Hext a ltac:(by left)).
  repeat case_decide; tauto.
Qed.

Lemma filter_all (P : A → Prop) `{!∀ x, Decision (P x)} (l : list A) :
  (∀ x, x ∈ l → P x) → filter P l = l.
Proof.
  induction l as [|a l IH]; intros Hall; [done|].
  rewrite filter_cons, decide_True by (apply Hall; by left).
  f_equal. apply IH. intros x Hx. apply Hall. by right.
Qed.

Lemma fmap_filter_comm (f : A → B) (P : B → Prop) `{!∀ y, Decision (P y)}
    (l : list A) :
  f <$> filter (λ x, P (f x)) l = filter P (f <$> l).
Proof.
  induction l as [|a l IH]; [done|].
  rewrite fmap_cons, !filter_cons.
  case_decide; [rewrite fmap_cons|]; by rewrite IH.
Qed.
End ListFacts.

Section Reconciler.
Variable g : Guild.


Lemma assign_pair reg k v : assign reg (k, v) = <[k := v]> reg.
Proof. done. Qed.

Lemma assign_absorb rows reg k v :
  <[k := v]> (foldl assign (<[k := v]> reg) rows)
    = <[k := v]> (foldl assign reg rows).
Proof.
  revert reg. induction rows as [|[k' v'] rows IH]; intros reg; simpl.
  - by rewrite insert_insert_eq.
  - rewrite !assign_pair. destruct (decide (k' = k)) as [->|Hne].
    + by rewrite insert_insert_eq.
    + rewrite insert_insert_ne by done. apply IH.
Qed.

Lemma assign_twice rows reg :
  foldl assign (foldl assign reg rows) rows = foldl assign reg rows.
Proof.
  revert reg. induction rows as [|[k v] rows IH] using rev_ind; intros reg.
  - done.
  - rewrite !foldl_snoc, !assign_pair, assign_absorb. by rewrite IH.
Qed.

Lemma not_live_None cid owner :
  ¬ live g (cid, owner) → get_channel g cid = None.
Proof.
  unfold live. simpl. destruct (get_channel g cid); [|done].
  intros H. exfalso. apply H. eauto.
Qed.

Lemma load_fold_registry rows db reg :
  (foldl (load_step g) (db, reg) rows).2
    = foldl assign reg (filter (live g) rows).
Proof.
  revert db reg. induction rows as [|[cid owner] rows IH]; intros db reg.
  - done.
  - rewrite filter_cons. simpl.
    destruct (decide (live g (cid, owner))) as [[ch Hch]|Hn].
    + simpl in Hch. rewrite Hch. simpl. apply IH.
    + rewrite (not_live_None _ _ Hn). apply IH.
Qed.

Lemma load_fold_channels rows db reg :
  Db.voice_channels (foldl (load_step g) (db, reg) rows).1
    = filter (λ r, Db.channel_id r ∉ gone_ids g rows) (Db.voice_channels db).
Proof.
  revert db reg. induction rows as [|[cid owner] rows IH]; intros db reg.
  - simpl. symmetry. apply filter_all. intros x _. apply not_elem_of_nil.
  - simpl. unfold gone_ids. rewrite filter_cons.
    destruct (decide (¬ live g (cid, owner))) as [Hn|Hl].
    + rewrite (not_live_None _ _ Hn).
      rewrite IH. simpl. rewrite list_filter_filter.
      apply filter_ext_elem. intros r _.
      rewrite not_elem_of_cons. unfold gone_ids. tauto.
    + destruct (decide (live g (cid, owner))) as [[ch Hch]|]; [|done].
      simpl in Hch. rewrite Hch. apply IH.
Qed.

Lemma load_fold_live rows db reg :
  (∀ row, row ∈ rows → live g row) →
  foldl (load_step g) (db, reg) rows = (db, foldl assign reg rows).
Proof.
  revert db reg. induction rows as [|[cid owner] rows IH]; intros db reg H.
  - done.
  - simpl. destruct (H (cid, owner) ltac:(by left)) as [ch Hch].
    simpl in Hch. rewrite Hch. simpl. apply IH.
    intros row Hrow. apply H. by right.
Qed.
End Reconciler.

Section ReconcilerPass.
Variable g : Guild.


Lemma gone_ids_live rows r :
  Db.row_of r ∈ rows → Db.channel_id r ∉ gone_ids g rows ↔ live g (Db.row_of r).
Proof.
  intros Hin. unfold gone_ids. split.
  - intros Hn. destruct (decide (live g (Db.row_of r))) as [|Hnl]; [done|].
    exfalso. apply Hn. apply list_elem_of_fmap. exists (Db.row_of r).
    split; [done|]. by apply list_elem_of_filter.
  - intros [ch Hch] Hg. apply list_elem_of_fmap in Hg as ([c o] & Hc & Hf).
    apply list_elem_of_filter in Hf as [Hnl _]. simpl in Hc. subst c.
    apply Hnl. by exists ch.
Qed.

(** The store after a pass over its own rows: the rows of live channels,
    in their order. *)
Lemma load_pass_channels db reg :
  Db.voice_channels (foldl (load_step g) (db, reg) (Db.select_channels db)).1
    = filter (λ r, live g (Db.row_of r)) (Db.voice_channels db).
Proof.
  rewrite load_fold_channels. apply filter_ext_elem. intros r Hr.
  apply gone_ids_live. unfold Db.select_channels.
  apply list_elem_of_fmap. by exists r.
Qed.

Lemma load_pass_rows db reg :
  Db.select_channels (foldl (load_step g) (db, reg) (Db.select_channels db)).1
    = filter (live g) (Db.select_channels db).
Proof.
  unfold Db.select_channels at 1. rewrite load_pass_channels.
  unfold Db.select_channels.
  exact (fmap_filter_comm Db.row_of (live g) (Db.voice_channels db)).
Qed.

Lemma load_pass_twice db reg :
  let p := foldl (load_step g) (db, reg) (Db.select_channels db) in
  foldl (load_step g) p (Db.select_channels p.1) = p.
Proof.
  intros p. pose proof (load_pass_rows db reg) as Hrows.
  pose proof (load_fold_registry g (Db.select_channels db) db reg) as Hreg.
  fold p in Hrows, Hreg. destruct p as [db1 reg1]. simpl in *.
  rewrite load_fold_live.
  - f_equal. rewrite Hrows, Hreg. apply assign_twice.
  - intros row Hrow. rewrite Hrows in Hrow.
    by apply list_elem_of_filter in Hrow as [? _].
Qed.
End ReconcilerPass.

Section ReconcilerRegistry.
Variable g : Guild.

Lemma load_fold_blocked rows db reg :
  Db.blocked_users (foldl (load_step g) (db, reg) rows).1
    = filter (λ p, p.1 ∉ gone_ids g rows) (Db.blocked_users db).
Proof.
  revert db reg. induction rows as [|[cid owner] rows IH]; intros db reg.
  - simpl. symmetry. apply filter_all. intros x _. apply not_elem_of_nil.
  - simpl. unfold gone_ids. rewrite filter_cons.
    destruct (decide (¬ live g (cid, owner))) as [Hn|Hl].
    + rewrite (not_live_None _ _ _ Hn).
      rewrite IH. simpl. rewrite list_filter_filter.
      apply filter_ext_elem. intros r _.
      rewrite not_elem_of_cons. unfold gone_ids. tauto.
    + destruct (decide (live g (cid, owner))) as [[ch Hch]|]; [|done].
      simpl in Hch. rewrite Hch. apply IH.
Qed.

Lemma assign_lookup_fresh rows reg k :
  k ∉ rows.*1 → foldl assign reg rows !! k = reg !! k.
Proof.
  revert reg. induction rows as [|[k' v'] rows IH]; intros reg Hk; [done|].
  rewrite fmap_cons in Hk. apply not_elem_of_cons in Hk as [Hne Hk].
  simpl. rewrite IH by done. rewrite assign_pair.
  by apply lookup_insert_ne.
Qed.

Lemma assign_lookup_row rows reg k v :
  NoDup rows.*1 → (k, v) ∈ rows → foldl assign reg rows !! k = Some v.
Proof.
  revert reg. induction rows as [|[k' v'] rows IH]; intros reg Hnd Hin.
  - by apply elem_of_nil in Hin.
  - rewrite fmap_cons in Hnd. apply NoDup_cons in Hnd as [Hfresh Hnd].
    apply elem_of_cons in Hin as [[= -> ->]|Hin]; simpl.
    + rewrite assign_lookup_fresh by done. rewrite assign_pair.
      apply lookup_insert_eq.
    + by apply IH.
Qed.

Lemma NoDup_filter_keys (P : Z * Z → Prop) `{!∀ x, Decision (P x)}
    (rows : list (Z * Z)) :
  NoDup rows.*1 → NoDup (filter P rows).*1.
Proof.
  induction rows as [|[k v] rows IH]; intros Hnd; [done|].
  rewrite fmap_cons in Hnd. apply NoDup_cons in Hnd as [Hfresh Hnd].
  rewrite filter_cons. case_decide; [|by apply IH].
  rewrite fmap_cons. apply NoDup_cons. split; [|by apply IH].
  intros Hin. apply Hfresh.
  apply list_elem_of_fmap in Hin as (x & -> & Hx).
  apply list_elem_of_filter in Hx as [_ Hx].
  apply list_elem_of_fmap. by exists x.
Qed.
End ReconcilerRegistry.

(** C7, as stated, fails where it says that the registry entry of an
    absent channel is dropped: the pass deletes the rows of channel 100 and
    leaves the registry entry in place. *)
Lemma C7_registry_counterexample :
  get_channel (guild state_stale) 100 = None ∧
  Db.voice_channels (db_conn (load_voice_channels state_stale)) = [] ∧
  Db.blocked_users (db_conn (load_voice_channels state_stale)) = [] ∧
  voice_channels (load_voice_channels state_stale) !! 100 = Some 10.
Proof. repeat split; vm_compute; reflexivity. Qed.

Lemma load_voice_channels_unfold (s : State) :
  load_voice_channels s
    = let p := foldl (load_step (guild s)) (db_conn s, voice_channels s)
                 (Db.select_channels (db_conn s)) in
      set_registry (set_db s p.1) p.2.
Proof. unfold load_voice_channels. by destruct (foldl _ _ _). Qed.

(** C7 (amended): a second pass of [load_voice_channels], the guild being
    the same, changes nothing.  After a pass the store keeps exactly the
    rows of the channels the guild still has, no blocked-user row is left
    for a persisted channel that is gone, and, the table respecting its
    primary key, the registry maps every kept channel to the owner of its
    row. *)
Theorem C7_reconcile_twice (s : State) :
  load_voice_channels (load_voice_channels s) = load_voice_channels s ∧
  Db.voice_channels (db_conn (load_voice_channels s))
    = filter (λ r, is_Some (get_channel (guild s) (Db.channel_id r)))
        (Db.voice_channels (db_conn s)) ∧
  (∀ r uid,
     r ∈ Db.voice_channels (db_conn s) →
     get_channel (guild s) (Db.channel_id r) = None →
     (Db.channel_id r, uid) ∉ Db.blocked_users (db_conn (load_voice_channels s))) ∧
  (NoDup (Db.channel_id <$> Db.voice_channels (db_conn s)) →
   ∀ r, r ∈ Db.voice_channels (db_conn s) →
        is_Some (get_channel (guild s) (Db.channel_id r)) →
        voice_channels (load_voice_channels s) !! Db.channel_id r
          = Some (Db.owner_id r)).
Proof.
  split; [|split; [|split]].
  - rewrite (load_voice_channels_unfold s).
    pose proof (load_pass_twice (guild s) (db_conn s) (voice_channels s)) as H.
    simpl in H.
    destruct (foldl (load_step (guild s)) (db_conn s, voice_channels s)
                (Db.select_channels (db_conn s))) as [db1 reg1].
    rewrite load_voice_channels_unfold. simpl in *. by rewrite H.
  - rewrite load_voice_channels_unfold. simpl. apply load_pass_channels.
  - intros r uid Hr Hgone Hin.
    rewrite load_voice_channels_unfold in Hin. simpl in Hin.
    rewrite load_fold_blocked in Hin.
    apply list_elem_of_filter in Hin as [Hkeep _]. simpl in Hkeep.
    apply (gone_ids_live (guild s) (Db.select_channels (db_conn s)) r) in Hkeep.
    + destruct Hkeep as [ch Hch]. simpl in Hch. congruence.
    + apply list_elem_of_fmap. by exists r.
  - intros Hnd r Hr Hlive.
    rewrite load_voice_channels_unfold. simpl.
    rewrite load_fold_registry.
    apply assign_lookup_row.
    + apply NoDup_filter_keys. unfold Db.select_channels.
      rewrite <- list_fmap_compose. exact Hnd.
    + apply list_elem_of_filter. split; [exact Hlive|].
      apply list_elem_of_fmap. by exists r.
Qed.

Lemma C7_reconcile_twice_witness :
  load_voice_channels (load_voice_channels state0) = load_voice_channels state0 ∧
  voice_channels (load_voice_channels state0) !! 100 = Some 10.
Proof.
  destruct (C7_reconcile_twice state0) as (Hidem & _ & _ & Hreg).
  split; [exact Hidem|].
  apply (Hreg ltac:(vm_compute; repeat constructor; set_solver)
              (Db.mkVoiceRow 100 10 None)).
  - vm_compute. left.
  - vm_compute. eauto.
Defined.

(** ** Mutation dispatcher: the checks in front of every button *)

Section Checks.
Variable s : State.
Variable user : Z.

Lemma press_refused b r :
  callback s user = (Refused, r) → press b s user = (s, r).
Proof. unfold press. by intros ->. Qed.



Lemma callback_not_owner c owner :
  voice_channel_of (guild s) user = Some c →
  voice_channels s !! c = Some owner → owner ≠ user →
  callback s user = (Refused, [NotOwner]).
Proof.
  unfold callback, is_channel_owner. intros -> H Hne.
  rewrite bool_decide_eq_false_2 by (by rewrite H).
  rewrite bool_decide_eq_false_2 by (rewrite H; congruence). done.
Qed.


Lemma callback_cleared c :
  voice_channel_of (guild s) user = Some c →
  voice_channels s !! c = Some user →
  is_Some (get_channel (guild s) c) →
  callback s user = (Cleared c, []).
Proof.
  unfold callback, is_channel_owner. intros -> H [ch Hg].
  rewrite bool_decide_eq_false_2 by (by rewrite H).
  rewrite bool_decide_eq_true_2 by done. simpl. by rewrite Hg.
Qed.
End Checks.



(** ** Ownership transfer *)

Lemma select_owner_update db new_owner cid :
  is_Some (Db.select_owner db cid) →
  Db.select_owner (Db.update_owner db new_owner cid) cid = Some new_owner.
Proof.
  unfold Db.select_owner, Db.update_owner. simpl.
  induction (Db.voice_channels db) as [|r l IH]; simpl.
  - by intros [? ?].
  - destruct (Db.has_channel cid r) eqn:E; simpl.
    + unfold Db.has_channel in *. simpl. by rewrite E.
    + by rewrite E.
Qed.

(** C1, as stated, fails for the mutations that do not start from a
    button.  Member 10 transfers channel 100 to member 11; registry and
    store then name 11.  A member menu or a modal that 10 had opened before
    is not checked again when it is used: 10 still kicks 11 out of the
    channel, sets its limit to 5 and hands it on to member 12, and none of
    these is refused. *)
Lemma C1_stale_menu_counterexample :
  let s' := (MemberSelectView_select_callback state0 100 ActTransfer 10 11).1 in
  let kick := MemberSelectView_select_callback s' 100 ActKick 10 11 in
  let limit := LimitMembersModal_on_submit s' 100 "5" in
  let again := MemberSelectView_select_callback s' 100 ActTransfer 10 12 in
  voice_channels s' !! 100 = Some 11 ∧
  Db.select_owner (db_conn s') 100 = Some 11 ∧
  voice_channel_of (guild s') 11 = Some 100 ∧
  kick.2 = [] ∧ voice_channel_of (guild kick.1) 11 = None ∧
  limit.2 = [LimitSet 5] ∧
  user_limit <$> get_channel (guild limit.1) 100 = Some 5 ∧
  again.2 = [] ∧ voice_channels again.1 !! 100 = Some 12.
Proof. repeat split; vm_compute; reflexivity. Qed.

(** C1 (amended): when the transfer of channel [R] from [A] to [B] goes
    through (the channel and the chosen member exist), the registry and the
    stored row both name [B] as owner, and a button pressed by [A] from
    inside [R] is then refused as coming from a non-owner, the state being
    returned unchanged. *)
Theorem C1_transfer_switches_owner (s : State) (R A B : Z) :
  voice_channels s !! R = Some A →
  Db.select_owner (db_conn s) R = Some A →
  is_Some (get_channel (guild s) R) →
  is_Some (get_member (guild s) B) →
  let s' := (MemberSelectView_select_callback s R ActTransfer A B).1 in
  voice_channels s' !! R = Some B ∧
  Db.select_owner (db_conn s') R = Some B ∧
  (A ≠ B → voice_channel_of (guild s') A = Some R →
   ∀ b, press b s' A = (s', [NotOwner])).
Proof.
  intros Hreg Hrow [ch Hch] [m Hm]. unfold MemberSelectView_select_callback.
  rewrite Hch, Hm. simpl. split; [|split].
  - apply lookup_insert_eq.
  - apply select_owner_update. by rewrite Hrow.
  - intros Hne Hin b. eapply press_refused, callback_not_owner; [exact Hin | | ].
    + simpl. apply lookup_insert_eq.
    + congruence.
Qed.

Lemma C1_transfer_switches_owner_witness :
  let s' := (MemberSelectView_select_callback state0 100 ActTransfer 10 11).1 in
  voice_channels s' !! 100 = Some 11 ∧
  Db.select_owner (db_conn s') 100 = Some 11 ∧
  press Limit s' 10 = (s', [NotOwner]).
Proof.
  destruct (C1_transfer_switches_owner state0 100 10 11) as (H1 & H2 & H3);
    [reflexivity | reflexivity | vm_compute; eauto | vm_compute; eauto |].
  split; [exact H1 | split; [exact H2 |]].
  apply H3; [discriminate | reflexivity].
Defined.

(** ** Creation *)

(** C2, on the code: when the platform channel is created and the move of
    the member into it raises, the one [try] block of
    [create_voice_channel] jumps over the insertion of the row and the
    assignment in the registry.  The channel stays on the platform, the
    store and the registry are exactly what they were, and so the channel
    is not registered, against the claim. *)
Theorem C2_failed_move_not_registered (s : State) (member new_channel : Z) :
  voice_category_id (config s) ∈ categories (guild s) →
  let s' := create_voice_channel s member
              (mkCreateOutcome (Some new_channel) false) in
  is_Some (get_channel (guild s') new_channel) ∧
  db_conn s' = db_conn s ∧
  voice_channels s' = voice_channels s.
Proof.
  intros Hcat. unfold create_voice_channel.
  rewrite bool_decide_eq_true_2 by done. simpl.
  split; [|done]. unfold get_channel. simpl.
  rewrite lookup_insert_eq. eauto.
Qed.

Lemma C2_failed_move_not_registered_witness :
  let s' := create_voice_channel state0 12 (mkCreateOutcome (Some 200) false) in
  is_Some (get_channel (guild s') 200) ∧
  db_conn s' = db_conn state0 ∧
  voice_channels s' = voice_channels state0.
Proof.
  apply (C2_failed_move_not_registered state0 12 200).
  vm_compute. set_solver.
Defined.

(** ** Presence events *)

Lemma is_on_cooldown_frame (s : State) (user now : Z) :
  let s' := (is_on_cooldown s user now).2 in
  voice_channels s' = voice_channels s ∧ db_conn s' = db_conn s ∧
  guild s' = guild s ∧ config s' = config s.
Proof.
  unfold is_on_cooldown. destruct (cooldowns s !! user); [case_bool_decide|]; done.
Qed.

Lemma move_to_channels (g : Guild) (uid : Z) (dest : option Z) :
  channels (move_to g uid dest) = channels g.
Proof. unfold move_to. by destruct (members g !! uid). Qed.

Lemma create_voice_channel_frame (s : State) (member R : Z) (o : CreateOutcome) :
  created o ≠ Some R →
  let s' := create_voice_channel s member o in
  voice_channels s' !! R = voice_channels s !! R ∧
  rows_of (db_conn s') R = rows_of (db_conn s) R ∧
  blocked_of (db_conn s') R = blocked_of (db_conn s) R ∧
  get_channel (guild s') R = get_channel (guild s) R.
Proof.
  intros Hfresh. unfold create_voice_channel.
  case_bool_decide; [|done].
  destruct (created o) as [new|] eqn:Enew; [|done].
  assert (new ≠ R) as Hne by congruence.
  assert (∀ g' : Guild, channels g' = <[new := mkVoiceChannel 0
             (<[member := default_user_permissions (config s)]>
                {[default_role (guild s) := overwrite_connect (Some true)]})]>
             (channels (guild s)) →
           get_channel g' R = get_channel (guild s) R) as Hch.
  { intros g' Hg'. unfold get_channel. rewrite Hg'. by apply lookup_insert_ne. }
  destruct (move_ok o); simpl.
  - destruct (Db.insert_channel _ _ _) as [db'|] eqn:Eins; simpl.
    + unfold Db.insert_channel in Eins. simpl in Eins.
      destruct (existsb _ _); [done|]. injection Eins as <-.
      unfold rows_of, blocked_of. simpl.
      rewrite lookup_insert_ne by done.
      rewrite filter_app, filter_cons, decide_False by done.
      rewrite filter_nil, app_nil_r.
      repeat split. apply Hch. by rewrite move_to_channels.
    + repeat split. apply Hch. by rewrite move_to_channels.
  - repeat split. by apply Hch.
Qed.

Lemma delete_voice_channel_frame (s : State) (R' R : Z) :
  R' ≠ R →
  let s' := delete_voice_channel s R' in
  voice_channels s' !! R = voice_channels s !! R ∧
  rows_of (db_conn s') R = rows_of (db_conn s) R ∧
  blocked_of (db_conn s') R = blocked_of (db_conn s) R ∧
  get_channel (guild s') R = get_channel (guild s) R.
Proof.
  intros Hne. unfold delete_voice_channel, rows_of, blocked_of, get_channel.
  simpl. rewrite !lookup_delete_ne by done. rewrite !list_filter_filter.
  repeat split; apply filter_ext_elem; intros x _; split;
    try tauto; intros ->; split; congruence.
Qed.

(** C8: the destruction of a managed channel [R] is reached only from an
    event in which its recorded owner leaves it.  Any other voice-state
    event, in particular one of a member who is not the owner and was in
    [R], leaves [R] alone: its registry entry, its stored rows, its
    blocked-user rows and the platform channel are what they were; and
    when such a member did not enter the creation channel the whole state
    is unchanged.  (The id the platform gives to a channel created during
    the event is a new one, hence not [R].) *)
Theorem C8_non_owner_leaving (s : State) (ev : VoiceEvent) (o : Observed)
    (R owner : Z) :
  voice_channels s !! R = Some owner →
  ¬ (ev_before ev = Some R ∧ ev_member ev = owner) →
  created (obs_create o) ≠ Some R →
  let s' := on_voice_state_update s ev o in
  voice_channels s' !! R = Some owner ∧
  rows_of (db_conn s') R = rows_of (db_conn s) R ∧
  blocked_of (db_conn s') R = blocked_of (db_conn s) R ∧
  get_channel (guild s') R = get_channel (guild s) R ∧
  (ev_before ev = Some R →
   ev_after ev ≠ Some (create_voice_channel_id (config s)) → s' = s).
Proof.
  intros Hreg Hnot Hfresh. unfold on_voice_state_update.
  destruct (ev_bot ev); [by rewrite Hreg|].
  case_bool_decide as Hafter.
  - destruct (is_on_cooldown s (ev_member ev) (obs_now o)) as [on_cd s1] eqn:Ecd.
    pose proof (is_on_cooldown_frame s (ev_member ev) (obs_now o)) as Hfr.
    rewrite Ecd in Hfr. simpl in Hfr. destruct Hfr as (Hr & Hdb & Hg & Hc).
    destruct on_cd.
    + rewrite Hr, Hdb, Hg. by rewrite Hreg.
    + pose proof (create_voice_channel_frame s1 (ev_member ev) R
                    (obs_create o) Hfresh) as Hcr.
      simpl in Hcr. rewrite Hr, Hdb, Hg in Hcr.
      destruct Hcr as (H1 & H2 & H3 & H4).
      rewrite H1, H2, H3, H4, Hreg. done.
  - destruct (ev_before ev) as [before|] eqn:Hbefore; [|by rewrite Hreg].
    destruct (voice_channels s !! before) as [owner'|] eqn:Hb; [|by rewrite Hreg].
    case_bool_decide as Hown; [|by rewrite Hreg].
    assert (before ≠ R) as Hne.
    { intros ->. apply Hnot. split; [done|]. congruence. }
    case_bool_decide; [|by rewrite Hreg].
    destruct (delete_voice_channel_frame s before R Hne) as (H1 & H2 & H3 & H4).
    rewrite H1, H2, H3, H4, Hreg. repeat split; try done. congruence.
Qed.

Lemma C8_non_owner_leaving_witness :
  on_voice_state_update state0 (mkVoiceEvent 11 false (Some 100) None)
    (mkObserved 7 (mkCreateOutcome None false) None) = state0.
Proof.
  destruct (C8_non_owner_leaving state0 (mkVoiceEvent 11 false (Some 100) None)
              (mkObserved 7 (mkCreateOutcome None false) None) 100 10)
    as (_ & _ & _ & _ & H);
    [reflexivity | intros [_ H]; discriminate H | discriminate |].
  apply H; [reflexivity | discriminate].
Defined.

(** ** Access controller: block and unblock *)

Section Permissions.
Variable g : Guild.
Variables cid target : Z.
Variable ow : PermissionOverwrite.

Lemma set_permissions_members :
  members (set_permissions g cid target ow) = members g.
Proof. unfold set_permissions. by destruct (channels g !! cid). Qed.

Lemma set_permissions_is_Some :
  is_Some (get_channel g cid) →
  is_Some (get_channel (set_permissions g cid target ow) cid).
Proof.
  unfold get_channel, set_permissions. intros [ch ->]. simpl.
  rewrite lookup_insert_eq. eauto.
Qed.

Lemma set_permissions_connect :
  is_Some (get_channel g cid) →
  connect_of (set_permissions g cid target ow) cid target = connect ow.
Proof.
  unfold connect_of, get_channel, set_permissions. intros [ch ->]. simpl.
  rewrite lookup_insert_eq. simpl. unfold overwrites_for. simpl.
  by rewrite lookup_insert_eq.
Qed.

Lemma set_permissions_twice :
  set_permissions (set_permissions g cid target ow) cid target ow
    = set_permissions g cid target ow.
Proof.
  unfold set_permissions. destruct (channels g !! cid) as [ch|] eqn:E; simpl.
  - rewrite lookup_insert_eq. simpl. by rewrite !insert_insert_eq.
  - by rewrite E.
Qed.
End Permissions.

Lemma move_to_is_Some_member (g : Guild) (uid : Z) (dest : option Z) :
  is_Some (get_member g uid) → is_Some (get_member (move_to g uid dest) uid).
Proof.
  unfold get_member, move_to. intros [m ->]. simpl.
  rewrite lookup_insert_eq. eauto.
Qed.

Lemma delete_blocked_twice (db : Db.t) (cid uid : Z) :
  Db.delete_blocked (Db.delete_blocked db cid uid) cid uid
    = Db.delete_blocked db cid uid.
Proof.
  unfold Db.delete_blocked. simpl. f_equal.
  apply filter_all. intros p Hp. by apply list_elem_of_filter in Hp as [? _].
Qed.

Lemma delete_after_insert_blocked (db : Db.t) (cid uid : Z) :
  Db.delete_blocked (Db.insert_or_ignore_blocked db cid uid) cid uid
    = Db.delete_blocked db cid uid.
Proof.
  unfold Db.insert_or_ignore_blocked. case_bool_decide; [done|].
  unfold Db.delete_blocked. simpl. f_equal.
  rewrite filter_app, filter_cons, decide_False by (intros H'; by apply H').
  by rewrite filter_nil, app_nil_r.
Qed.

Lemma block_user_db (s : State) (R U : Z) :
  db_conn (block_user s R U) = Db.insert_or_ignore_blocked (db_conn s) R U.
Proof.
  unfold block_user. simpl.
  destruct (get_channel (guild s) R), (get_member (guild s) U);
    try case_bool_decide; done.
Qed.

Lemma unblock_user_db (s : State) (R U : Z) :
  db_conn (unblock_user s R U) = Db.delete_blocked (db_conn s) R U.
Proof.
  unfold unblock_user. simpl.
  by destruct (get_channel (guild s) R), (get_member (guild s) U).
Qed.

Lemma unblock_user_twice (s : State) (R U : Z) :
  unblock_user (unblock_user s R U) R U = unblock_user s R U.
Proof.
  unfold unblock_user. simpl.
  destruct (get_channel (guild s) R) as [ch|] eqn:Ech;
    [destruct (get_member (guild s) U) as [m|] eqn:Em|]; simpl.
  - destruct (set_permissions_is_Some (guild s) R U (overwrite_connect (Some true)))
      as [ch' ->]; [eauto|].
    unfold get_member in *. rewrite set_permissions_members, Em.
    unfold set_guild, set_db. simpl.
    by rewrite delete_blocked_twice, set_permissions_twice.
  - rewrite Ech, Em. unfold set_db. simpl. by rewrite delete_blocked_twice.
  - rewrite Ech. unfold set_db. simpl. by rewrite delete_blocked_twice.
Qed.

(** C6, as stated, fails: member 11 holds no overwrite on channel 100, so
    the connect right is inherited; after block and unblock it is
    explicitly granted. *)
Lemma C6_round_trip_counterexample :
  connect_of (guild state0) 100 11 = None ∧
  connect_of (guild (unblock_user (block_user state0 100 11) 100 11)) 100 11
    = Some true.
Proof. split; vm_compute; reflexivity. Qed.

(** C6 (amended): [unblock_user] after [block_user] removes the row of
    [(R, U)] from [blocked_users] and keeps every other row; when the
    channel and the member are known it leaves [U] with the connect right
    explicitly granted on [R], whatever the right was before the block;
    and a further [unblock_user] changes nothing. *)
Theorem C6_block_then_unblock (s : State) (R U : Z) :
  let s2 := unblock_user (block_user s R U) R U in
  Db.blocked_users (db_conn s2)
    = filter (λ p, p ≠ (R, U)) (Db.blocked_users (db_conn s)) ∧
  (is_Some (get_channel (guild s) R) → is_Some (get_member (guild s) U) →
   connect_of (guild s2) R U = Some true) ∧
  unblock_user s2 R U = s2.
Proof.
  split; [|split].
  - rewrite unblock_user_db, block_user_db, delete_after_insert_blocked.
    done.
  - intros Hch Hm. unfold unblock_user.
    assert (is_Some (get_channel (guild (block_user s R U)) R) ∧
            is_Some (get_member (guild (block_user s R U)) U)) as [Hch' Hm'].
    { unfold block_user. simpl. destruct Hch as [ch Hch], Hm as [m Hm].
      rewrite Hch, Hm.
      pose proof (set_permissions_is_Some (guild s) R U
                    (overwrite_connect (Some false)) ltac:(eauto)) as Hc.
      assert (is_Some (get_member (set_permissions (guild s) R U
                (overwrite_connect (Some false))) U)) as Hmm.
      { unfold get_member in *. rewrite set_permissions_members. eauto. }
      case_bool_decide; simpl.
      - split; [|by apply move_to_is_Some_member].
        unfold get_channel in *. by rewrite move_to_channels.
      - done. }
    simpl. destruct Hch' as [ch' Hch'], Hm' as [m' Hm']. rewrite Hch', Hm'.
    simpl. apply (set_permissions_connect _ R U (overwrite_connect (Some true))).
    eauto.
  - apply unblock_user_twice.
Qed.

Lemma C6_block_then_unblock_witness :
  connect_of (guild (unblock_user (block_user state0 100 11) 100 11)) 100 11
    = Some true.
Proof.
  destruct (C6_block_then_unblock state0 100 11) as (_ & H & _).
  apply H; vm_compute; eauto.
Defined.

(** ** Access controller: invitations *)

Lemma save_invite_timestamp_guild (s : State) (now inviter invited : Z)
    (cid : option Z) :
  guild (save_invite_timestamp s now inviter invited cid) = guild s.
Proof.
  unfold save_invite_timestamp. by destruct (Db.insert_invite _ _ _ _ _).
Qed.

(** Once a row exists for a triple with a channel, the UNIQUE constraint
    refuses every later insertion for it: the table stays as it is. *)
Lemma save_invite_timestamp_conflict (s : State) (now inviter invited cid : Z) :
  existsb (Db.invite_conflicts inviter invited (Some cid))
    (Db.user_invites (db_conn s)) = true →
  save_invite_timestamp s now inviter invited (Some cid) = s.
Proof.
  intros H. unfold save_invite_timestamp, Db.insert_invite. by rewrite H.
Qed.

(** C3, on the code: member 10 invites member 11 into channel 100 at time
    0, which appends a row.  One hour later the same invitation is refused
    as rate-limited.  Three hours later it is granted, but the insertion of
    its row violates the UNIQUE constraint of [user_invites]; the error is
    swallowed and the table still holds the row of time 0 alone. *)
Theorem C3_third_hour_invite_not_recorded :
  let first := InviteUserModal_on_submit state0 100 10 (Some 11)
                 (mkInviteObserved 0 true) in
  let sT := first.1 in
  let second := InviteUserModal_on_submit sT 100 10 (Some 11)
                  (mkInviteObserved one_hour true) in
  let third := InviteUserModal_on_submit sT 100 10 (Some 11)
                 (mkInviteObserved (3 * one_hour) true) in
  first.2 = [InviteSucceeded] ∧
  Db.user_invites (db_conn sT) = [Db.mkInviteRow 10 11 0 (Some 100)] ∧
  second = (sT, [InviteCooldown]) ∧
  third.2 = [InviteSucceeded] ∧
  Db.user_invites (db_conn third.1) = [Db.mkInviteRow 10 11 0 (Some 100)].
Proof. repeat split; vm_compute; reflexivity. Qed.

(** C10: when the query of the rate-limit check raises, the check answers
    that no cooldown applies, whatever the table holds; the invitation then
    goes through as for a first one: the invited member is granted the
    connect right and the success message is sent. *)
Theorem C10_check_fails_open (s : State) (cid actor user now : Z) :
  (∀ c, check_invite_cooldown s false now actor user c = false) ∧
  (user ≠ actor →
   is_Some (get_channel (guild s) cid) →
   user ∉ get_blocked_users s cid →
   let r := InviteUserModal_on_submit s cid actor (Some user)
              (mkInviteObserved now false) in
   r.2 = [InviteSucceeded] ∧ connect_of (guild r.1) cid user = Some true).
Proof.
  split; [done|]. intros Hne [ch Hch] Hblocked.
  unfold InviteUserModal_on_submit. simpl.
  rewrite bool_decide_eq_false_2 by done. rewrite Hch.
  rewrite bool_decide_eq_false_2 by done. simpl. split; [done|].
  rewrite save_invite_timestamp_guild. simpl.
  apply (set_permissions_connect _ cid user (overwrite_connect (Some true))).
  by exists ch.
Qed.

(** In [state_invited] the last invitation of 11 by 10 is one hour old:
    with a working query the request is refused, with a failing one it is
    granted. *)
Lemma C10_check_fails_open_witness :
  check_invite_cooldown state_invited true one_hour 10 11 (Some 100) = true ∧
  (InviteUserModal_on_submit state_invited 100 10 (Some 11)
     (mkInviteObserved one_hour false)).2 = [InviteSucceeded] ∧
  connect_of (guild (InviteUserModal_on_submit state_invited 100 10 (Some 11)
     (mkInviteObserved one_hour false)).1) 100 11 = Some true.
Proof.
  split; [vm_compute; reflexivity|].
  destruct (C10_check_fails_open state_invited 100 10 11 one_hour) as [_ H].
  apply H.
  - discriminate.
  - vm_compute. eauto.
  - vm_compute. apply not_elem_of_nil.
Defined.

(** ** SetLimit *)

Lemma PyInt_int_samples :
  PyInt.int "42" = Some 42 ∧ PyInt.int " 7" = Some 7 ∧
  PyInt.int "+3" = Some 3 ∧ PyInt.int "-0" = Some 0 ∧
  PyInt.int "1_0" = Some 10 ∧ PyInt.int "_1" = None ∧
  PyInt.int "1_" = None ∧ PyInt.int "" = None ∧ PyInt.int "-" = None ∧
  PyInt.int "4x" = None.
Proof. repeat split; reflexivity. Qed.

Lemma limit_out_of_range_silent (s : State) (cid : Z) (text : string) (v : Z) :
  PyInt.int text = Some v → v < 0 ∨ v > 99 →
  LimitMembersModal_on_submit s cid text = (s, []).
Proof.
  intros Hv Hr. unfold LimitMembersModal_on_submit. rewrite Hv.
  by rewrite bool_decide_eq_true_2.
Qed.

Lemma limit_in_range_applied (s : State) (cid : Z) (text : string) (v : Z) :
  PyInt.int text = Some v → 0 ≤ v ≤ 99 →
  is_Some (get_channel (guild s) cid) →
  user_limit <$> get_channel
    (guild (LimitMembersModal_on_submit s cid text).1) cid = Some v.
Proof.
  intros Hv Hr [ch Hch]. unfold LimitMembersModal_on_submit. rewrite Hv.
  rewrite bool_decide_eq_false_2 by lia. rewrite Hch. simpl.
  unfold edit_user_limit, get_channel in *. rewrite Hch. simpl.
  rewrite lookup_insert_eq. simpl. f_equal.
  destruct (v =? 0) eqn:E; [|done]. apply Z.eqb_eq in E. lia.
Qed.

(** C9, on the code: the text [-1] is an integer out of range; the modal
    leaves the limit alone but sends nothing back, the embed it builds is
    never sent.  Text that is not a number is answered with a validation
    message, and a value in range is applied. *)
Theorem C9_out_of_range_unanswered :
  LimitMembersModal_on_submit state0 100 "-1" = (state0, []) ∧
  LimitMembersModal_on_submit state0 100 "ab" = (state0, [EnterValidNumber]) ∧
  (LimitMembersModal_on_submit state0 100 "5").2 = [LimitSet 5] ∧
  user_limit <$> get_channel
    (guild (LimitMembersModal_on_submit state0 100 "5").1) 100 = Some 5.
Proof. repeat split; vm_compute; reflexivity. Qed.

(** * Further properties of the code *)

(** ** Destruction *)

Lemma delete_channel_voice (g : Guild) (R m : Z) :
  voice_channel_of (delete_channel g R) m
    = if bool_decide (voice_channel_of g m = Some R) then None
      else voice_channel_of g m.
Proof.
  unfold voice_channel_of, delete_channel. simpl. rewrite lookup_fmap.
  destruct (members g !! m) as [mb|]; simpl.
  - destruct (bool_decide (voice mb = Some R)); done.
  - by destruct (bool_decide (None = Some R)).
Qed.

Lemma delete_voice_channel_guild (s : State) (R : Z) :
  guild (delete_voice_channel s R) = delete_channel (guild s) R.
Proof. reflexivity. Qed.

(** X1: [delete_voice_channel] removes everything the manager holds about
    the channel (registry entry, stored rows, blocked-user rows, platform
    channel) and keeps the invitation history and the cooldowns as they
    were.  Nobody is left in the deleted channel, and a member who was
    not in it stays where they were. *)
Theorem delete_voice_channel_clears (s : State) (R : Z) :
  let s' := delete_voice_channel s R in
  voice_channels s' !! R = None ∧
  rows_of (db_conn s') R = [] ∧
  Db.select_owner (db_conn s') R = None ∧
  get_blocked_users s' R = [] ∧
  get_channel (guild s') R = None ∧
  Db.user_invites (db_conn s') = Db.user_invites (db_conn s) ∧
  cooldowns s' = cooldowns s ∧
  (∀ m, voice_channel_of (guild s') m ≠ Some R) ∧
  (∀ m, voice_channel_of (guild s) m ≠ Some R →
        voice_channel_of (guild s') m = voice_channel_of (guild s) m).
Proof.
  assert (∀ m, voice_channel_of (guild (delete_voice_channel s R)) m ≠ Some R)
    as Hout.
  { intros m. rewrite delete_voice_channel_guild, delete_channel_voice.
    by case_bool_decide. }
  assert (∀ m, voice_channel_of (guild s) m ≠ Some R →
               voice_channel_of (guild (delete_voice_channel s R)) m
                 = voice_channel_of (guild s) m) as Hstay.
  { intros m Hm. rewrite delete_voice_channel_guild, delete_channel_voice.
    by rewrite bool_decide_eq_false_2. }
  revert Hout Hstay.
  unfold delete_voice_channel, rows_of, get_blocked_users, Db.select_blocked,
    Db.select_owner, get_channel. simpl. intros Hout Hstay.
  rewrite !lookup_delete_eq, !list_filter_filter.
  assert (∀ l : list Db.VoiceRow,
            filter (λ r, Db.channel_id r = R ∧ Db.channel_id r ≠ R) l = []) as Hr.
  { induction l as [|r l IH]; [done|].
    rewrite filter_cons, decide_False by tauto. done. }
  assert (∀ l : list (Z * Z), filter (λ p, p.1 = R ∧ p.1 ≠ R) l = []) as Hb.
  { induction l as [|r l IH]; [done|].
    rewrite filter_cons, decide_False by tauto. done. }
  rewrite Hr, Hb. repeat split; try done.
  induction (Db.voice_channels (db_conn s)) as [|r l IH]; [done|].
  rewrite filter_cons. case_decide as Hc; [|done]. simpl.
  unfold Db.has_channel at 1.
  destruct (Db.channel_id r =? R) eqn:E; [|done].
  apply Z.eqb_eq in E. done.
Qed.

(** ** Presence events, further *)

(** X2: when the recorded owner of [R] leaves it for anything but the
    creation channel, the channel is destroyed if the owner is not back in
    [R] once the debounce is over, and nothing at all happens if the owner
    is back. *)
Theorem owner_leaving_debounced (s : State) (ev : VoiceEvent) (o : Observed)
    (R : Z) :
  ev_bot ev = false →
  ev_before ev = Some R →
  voice_channels s !! R = Some (ev_member ev) →
  ev_after ev ≠ Some (create_voice_channel_id (config s)) →
  (obs_voice_later o ≠ Some R →
   on_voice_state_update s ev o = delete_voice_channel s R ∧
   voice_channels (on_voice_state_update s ev o) !! R = None ∧
   get_channel (guild (on_voice_state_update s ev o)) R = None) ∧
  (obs_voice_later o = Some R → on_voice_state_update s ev o = s).
Proof.
  intros Hbot Hbefore Hreg Hafter. unfold on_voice_state_update.
  rewrite Hbot, Hbefore, Hreg.
  rewrite (bool_decide_eq_false_2 _ Hafter).
  rewrite bool_decide_eq_true_2 by done.
  split; intros Hlater.
  - rewrite bool_decide_eq_true_2 by done. split; [done|].
    unfold delete_voice_channel, get_channel. simpl.
    by rewrite !lookup_delete_eq.
  - rewrite bool_decide_eq_false_2; [done|]. intros H. by apply H.
Qed.

Lemma owner_leaving_debounced_witness :
  voice_channels
    (on_voice_state_update state0 (mkVoiceEvent 10 false (Some 100) None)
       (mkObserved 7 (mkCreateOutcome None false) None)) !! 100 = None.
Proof.
  destruct (owner_leaving_debounced state0
              (mkVoiceEvent 10 false (Some 100) None)
              (mkObserved 7 (mkCreateOutcome None false) None) 100)
    as [H _]; [reflexivity | reflexivity | reflexivity | discriminate |].
  destruct H as (_ & H & _); [discriminate | exact H].
Defined.

(** X3: the creation branch is tried first.  An owner who goes from their
    channel [R] straight into the creation channel does not trigger the
    destruction of [R]: its registry entry, rows, blocked-user rows and
    platform channel stay, whether or not a new channel gets created. *)
Theorem owner_entering_creation_keeps_channel (s : State) (ev : VoiceEvent)
    (o : Observed) (R : Z) :
  ev_before ev = Some R →
  voice_channels s !! R = Some (ev_member ev) →
  ev_after ev = Some (create_voice_channel_id (config s)) →
  created (obs_create o) ≠ Some R →
  let s' := on_voice_state_update s ev o in
  voice_channels s' !! R = Some (ev_member ev) ∧
  rows_of (db_conn s') R = rows_of (db_conn s) R ∧
  blocked_of (db_conn s') R = blocked_of (db_conn s) R ∧
  get_channel (guild s') R = get_channel (guild s) R.
Proof.
  intros Hbefore Hreg Hafter Hfresh. unfold on_voice_state_update.
  destruct (ev_bot ev); [by rewrite Hreg|].
  rewrite bool_decide_eq_true_2 by done.
  destruct (is_on_cooldown s (ev_member ev) (obs_now o)) as [on_cd s1] eqn:Ecd.
  pose proof (is_on_cooldown_frame s (ev_member ev) (obs_now o)) as Hfr.
  rewrite Ecd in Hfr. simpl in Hfr. destruct Hfr as (Hr & Hdb & Hg & Hc).
  destruct on_cd.
  - rewrite Hr, Hdb, Hg. by rewrite Hreg.
  - pose proof (create_voice_channel_frame s1 (ev_member ev) R
                  (obs_create o) Hfresh) as Hcr.
    simpl in Hcr. rewrite Hr, Hdb, Hg in Hcr.
    destruct Hcr as (H1 & H2 & H3 & H4).
    by rewrite H1, H2, H3, H4, Hreg.
Qed.

Lemma owner_entering_creation_keeps_channel_witness :
  let ev := mkVoiceEvent 10 false (Some 100)
              (Some (create_voice_channel_id DEFAULT_CONFIG)) in
  let o := mkObserved 9 (mkCreateOutcome (Some 200) true) (Some 200) in
  voice_channels (on_voice_state_update state0 ev o) !! 100 = Some 10 ∧
  voice_channels (on_voice_state_update state0 ev o) !! 200 = Some 10.
Proof.
  split; [|vm_compute; reflexivity].
  apply (owner_entering_creation_keeps_channel state0
           (mkVoiceEvent 10 false (Some 100)
              (Some (create_voice_channel_id DEFAULT_CONFIG)))
           (mkObserved 9 (mkCreateOutcome (Some 200) true) (Some 200)) 100);
    [reflexivity | reflexivity | reflexivity | discriminate].
Defined.

(** X4: the cooldown is spent by the attempt, not by the creation.  When
    an admitted member enters the creation channel and the channel cannot
    be created (no category, or the platform call fails), nothing is
    registered but the member is stamped, and a second entry less than one
    cooldown later is turned away without any change. *)
Theorem failed_creation_spends_cooldown (s : State) (ev : VoiceEvent)
    (o : Observed) :
  ev_bot ev = false →
  ev_after ev = Some (create_voice_channel_id (config s)) →
  (is_on_cooldown s (ev_member ev) (obs_now o)).1 = false →
  voice_category_id (config s) ∉ categories (guild s) ∨
    created (obs_create o) = None →
  let s' := on_voice_state_update s ev o in
  s' = set_cooldowns s (<[ev_member ev := obs_now o]> (cooldowns s)) ∧
  (∀ o', obs_now o' - obs_now o < cooldown_time (config s) →
         on_voice_state_update s' ev o' = s').
Proof.
  intros Hbot Hafter Hadm Hfail.
  assert (on_voice_state_update s ev o
            = set_cooldowns s (<[ev_member ev := obs_now o]> (cooldowns s))) as E.
  { unfold on_voice_state_update. rewrite Hbot.
    rewrite bool_decide_eq_true_2 by done.
    revert Hadm. unfold is_on_cooldown.
    assert (create_voice_channel
              (set_cooldowns s (<[ev_member ev := obs_now o]> (cooldowns s)))
              (ev_member ev) (obs_create o)
            = set_cooldowns s (<[ev_member ev := obs_now o]> (cooldowns s))) as Hc.
    { unfold create_voice_channel. simpl. destruct Hfail as [Hcat | Hcr].
      - by rewrite bool_decide_eq_false_2.
      - rewrite Hcr. by case_bool_decide. }
    destruct (cooldowns s !! ev_member ev) as [last|];
      [case_bool_decide|]; simpl; intros; done. }
  simpl. split; [exact E|]. rewrite E. intros o' Hlt.
  unfold on_voice_state_update. rewrite Hbot. simpl.
  rewrite bool_decide_eq_true_2 by done.
  rewrite (is_on_cooldown_denied _ (ev_member ev) (obs_now o') (obs_now o)).
  - done.
  - simpl. apply lookup_insert_eq.
  - done.
Qed.

Lemma failed_creation_spends_cooldown_witness :
  let ev := mkVoiceEvent 12 false None
              (Some (create_voice_channel_id DEFAULT_CONFIG)) in
  let s' := on_voice_state_update state0 ev
              (mkObserved 20 (mkCreateOutcome None false) None) in
  cooldowns s' !! 12 = Some 20 ∧
  on_voice_state_update s' ev
    (mkObserved 24 (mkCreateOutcome (Some 200) true) (Some 200)) = s'.
Proof.
  destruct (failed_creation_spends_cooldown state0
              (mkVoiceEvent 12 false None
                 (Some (create_voice_channel_id DEFAULT_CONFIG)))
              (mkObserved 20 (mkCreateOutcome None false) None))
    as [H1 H2]; [reflexivity | reflexivity | reflexivity | by right |].
  cbv zeta. split.
  - rewrite H1. reflexivity.
  - apply H2. vm_compute. reflexivity.
Defined.

(** ** Creation, further *)

Section StoredRows.
Variable cid : Z.

Lemma find_row_None_existsb (l : list Db.VoiceRow) :
  find (Db.has_channel cid) l = None → existsb (Db.has_channel cid) l = false.
Proof.
  induction l as [|r l IH]; [done|]. simpl.
  destruct (Db.has_channel cid r); [done|]. exact IH.
Qed.

Lemma find_row_app (l k : list Db.VoiceRow) :
  find (Db.has_channel cid) (l ++ k)
    = match find (Db.has_channel cid) l with
      | Some r => Some r
      | None => find (Db.has_channel cid) k
      end.
Proof.
  induction l as [|r l IH]; [done|]. simpl.
  by destruct (Db.has_channel cid r).
Qed.

Lemma find_row_filter_other (R : Z) (l : list Db.VoiceRow) :
  cid ≠ R →
  find (Db.has_channel cid) (filter (λ r, Db.channel_id r ≠ R) l)
    = find (Db.has_channel cid) l.
Proof.
  intros Hne. induction l as [|r l IH]; [done|].
  rewrite filter_cons. simpl. case_decide as Hr; simpl.
  - by rewrite IH.
  - rewrite IH. unfold Db.has_channel at 2.
    destruct (Db.channel_id r =? cid) eqn:E; [|done].
    apply Z.eqb_eq in E. congruence.
Qed.

Lemma select_owner_update_other (db : Db.t) (new_owner R : Z) :
  cid ≠ R →
  Db.select_owner (Db.update_owner db new_owner R) cid = Db.select_owner db cid.
Proof.
  intros Hne. unfold Db.select_owner, Db.update_owner. simpl.
  induction (Db.voice_channels db) as [|r l IH]; [done|].
  rewrite fmap_cons. simpl.
  destruct (Db.has_channel R r) eqn:ER; simpl.
  - unfold Db.has_channel in *. simpl. apply Z.eqb_eq in ER.
    destruct (Db.channel_id r =? cid) eqn:E.
    + apply Z.eqb_eq in E. congruence.
    + exact IH.
  - destruct (Db.has_channel cid r); [done | exact IH].
Qed.
End StoredRows.

Lemma select_owner_insert (db db' : Db.t) (cid owner : Z) :
  Db.insert_channel db cid owner = Some db' →
  Db.select_owner db cid = None ∧
  Db.select_owner db' cid = Some owner ∧
  (∀ c, c ≠ cid → Db.select_owner db' c = Db.select_owner db c) ∧
  Db.blocked_users db' = Db.blocked_users db ∧
  Db.user_invites db' = Db.user_invites db.
Proof.
  unfold Db.insert_channel, Db.select_owner.
  destruct (existsb (Db.has_channel cid) (Db.voice_channels db)) eqn:E; [done|].
  intros [= <-]. simpl.
  assert (find (Db.has_channel cid) (Db.voice_channels db) = None) as Hnone.
  { destruct (find _ _) as [r|] eqn:F; [|done].
    apply find_some in F as [Hin Hr].
    assert (existsb (Db.has_channel cid) (Db.voice_channels db) = true)
      by (apply existsb_exists; eauto). congruence. }
  rewrite !find_row_app, Hnone. simpl. unfold Db.has_channel at 1. simpl.
  rewrite Z.eqb_refl. repeat split; try done.
  intros c Hc. rewrite find_row_app.
  destruct (find (Db.has_channel c) (Db.voice_channels db)); [done|].
  simpl. unfold Db.has_channel. simpl.
  destruct (cid =? c) eqn:E'; [|done]. apply Z.eqb_eq in E'. congruence.
Qed.

(** X5: a creation that goes through registers the member as owner of
    the new channel in the registry and in the store, puts the member in
    it, gives the member the configured rights, and the member then passes
    the four checks of the control surface for that channel. *)
Theorem creation_registers_owner (s : State) (member new_channel : Z)
    (o : CreateOutcome) :
  voice_category_id (config s) ∈ categories (guild s) →
  created o = Some new_channel →
  move_ok o = true →
  Db.select_owner (db_conn s) new_channel = None →
  is_Some (get_member (guild s) member) →
  let s' := create_voice_channel s member o in
  voice_channels s' !! new_channel = Some member ∧
  Db.select_owner (db_conn s') new_channel = Some member ∧
  voice_channel_of (guild s') member = Some new_channel ∧
  (λ ch, overwrites_for ch member) <$> get_channel (guild s') new_channel
    = Some (default_user_permissions (config s)) ∧
  callback s' member = (Cleared new_channel, []).
Proof.
  intros Hcat Hcr Hmv Hrow [m Hm]. unfold create_voice_channel.
  rewrite bool_decide_eq_true_2 by done. rewrite Hcr, Hmv. simpl.
  unfold Db.insert_channel.
  rewrite find_row_None_existsb
    by (unfold Db.select_owner in Hrow; by destruct (find _ _)).
  simpl.
  assert (voice_channel_of (move_to (create_channel (guild s) new_channel
            (<[member := default_user_permissions (config s)]>
               {[default_role (guild s) := overwrite_connect (Some true)]}))
            member (Some new_channel)) member = Some new_channel) as Hvoice.
  { unfold voice_channel_of, move_to, get_member in *. simpl. rewrite Hm. simpl.
    by rewrite lookup_insert_eq. }
  assert (get_channel (move_to (create_channel (guild s) new_channel
            (<[member := default_user_permissions (config s)]>
               {[default_role (guild s) := overwrite_connect (Some true)]}))
            member (Some new_channel)) new_channel
          = Some (mkVoiceChannel 0
              (<[member := default_user_permissions (config s)]>
               {[default_role (guild s) := overwrite_connect (Some true)]})))
    as Hch.
  { unfold get_channel. rewrite move_to_channels. simpl.
    apply lookup_insert_eq. }
  split; [apply lookup_insert_eq|]. split.
  { unfold Db.select_owner in *. simpl. rewrite find_row_app.
    destruct (find _ _); [done|]. simpl. unfold Db.has_channel. simpl.
    by rewrite Z.eqb_refl. }
  split; [exact Hvoice|]. split.
  { rewrite Hch. simpl. unfold overwrites_for. simpl.
    by rewrite lookup_insert_eq. }
  apply callback_cleared; simpl.
  - exact Hvoice.
  - apply lookup_insert_eq.
  - rewrite Hch. eauto.
Qed.

Lemma creation_registers_owner_witness :
  callback (create_voice_channel state0 12 (mkCreateOutcome (Some 200) true)) 12
    = (Cleared 200, []).
Proof.
  destruct (creation_registers_owner state0 12 200
              (mkCreateOutcome (Some 200) true)) as (_ & _ & _ & _ & H);
    [vm_compute; set_solver | reflexivity | reflexivity | reflexivity
    | vm_compute; eauto | exact H].
Defined.

(** ** The registry stays backed by the store *)

Lemma registry_backed_state0 : registry_backed state0.
Proof.
  intros cid owner H. destruct (decide (cid = 100)) as [->|Hne].
  - vm_compute in H. injection H as <-. reflexivity.
  - unfold state0 in H. simpl in H. by rewrite lookup_singleton_ne in H.
Qed.

Lemma create_voice_channel_backed (s : State) (member : Z) (o : CreateOutcome) :
  registry_backed s → registry_backed (create_voice_channel s member o).
Proof.
  intros Hb. unfold create_voice_channel.
  case_bool_decide; [|done].
  destruct (created o) as [new|]; [|done].
  destruct (move_ok o); [|exact Hb]. simpl.
  destruct (Db.insert_channel (db_conn s) new member) as [db'|] eqn:Eins;
    [|exact Hb].
  apply select_owner_insert in Eins as (_ & Hnew & Hother & _).
  intros cid owner. simpl. destruct (decide (cid = new)) as [->|Hne].
  - rewrite lookup_insert_eq. by intros [= <-].
  - rewrite lookup_insert_ne by done. rewrite Hother by done. apply Hb.
Qed.

Lemma delete_voice_channel_backed (s : State) (R : Z) :
  registry_backed s → registry_backed (delete_voice_channel s R).
Proof.
  intros Hb cid owner. unfold delete_voice_channel. simpl.
  destruct (decide (cid = R)) as [->|Hne].
  - by rewrite lookup_delete_eq.
  - rewrite lookup_delete_ne by done. intros H. apply Hb in H.
    unfold Db.select_owner in *. simpl. by rewrite find_row_filter_other.
Qed.

(** X6: whatever the event and whatever the platform answers,
    [on_voice_state_update] keeps every registry entry backed by a stored
    row with the same owner. *)
Theorem on_voice_state_update_backed (s : State) (ev : VoiceEvent)
    (o : Observed) :
  registry_backed s → registry_backed (on_voice_state_update s ev o).
Proof.
  intros Hb. unfold on_voice_state_update.
  destruct (ev_bot ev); [done|]. case_bool_decide.
  - destruct (is_on_cooldown s (ev_member ev) (obs_now o)) as [on_cd s1] eqn:Ecd.
    pose proof (is_on_cooldown_frame s (ev_member ev) (obs_now o)) as Hfr.
    rewrite Ecd in Hfr. simpl in Hfr. destruct Hfr as (Hr & Hdb & _).
    assert (registry_backed s1) as Hb1.
    { intros cid owner. rewrite Hr, Hdb. apply Hb. }
    destruct on_cd; [done|]. by apply create_voice_channel_backed.
  - destruct (ev_before ev) as [before|]; [|done].
    destruct (voice_channels s !! before); [|done].
    repeat case_bool_decide; try done. by apply delete_voice_channel_backed.
Qed.

Lemma on_voice_state_update_backed_witness :
  registry_backed
    (on_voice_state_update state0
       (mkVoiceEvent 12 false None
          (Some (create_voice_channel_id DEFAULT_CONFIG)))
       (mkObserved 20 (mkCreateOutcome (Some 200) true) (Some 200))).
Proof. apply on_voice_state_update_backed, registry_backed_state0. Defined.

(** X7: a kick or a transfer chosen from a member menu of a managed
    channel keeps the registry backed by the store. *)
Theorem select_callback_backed (s : State) (channel_id : Z) (act : Action)
    (actor selected_id : Z) :
  registry_backed s →
  is_Some (voice_channels s !! channel_id) →
  registry_backed
    (MemberSelectView_select_callback s channel_id act actor selected_id).1.
Proof.
  intros Hb [owner Hreg]. unfold MemberSelectView_select_callback.
  destruct (get_channel (guild s) channel_id); [|done].
  destruct (get_member (guild s) selected_id) as [m|]; [|done].
  destruct act.
  - by case_bool_decide.
  - simpl. intros cid own. simpl.
    destruct (decide (cid = channel_id)) as [->|Hne].
    + rewrite lookup_insert_eq. intros [= <-].
      apply select_owner_update. rewrite (Hb _ _ Hreg). eauto.
    + rewrite lookup_insert_ne by done.
      rewrite select_owner_update_other by done. apply Hb.
Qed.

Lemma select_callback_backed_witness :
  registry_backed
    (MemberSelectView_select_callback state0 100 ActTransfer 10 11).1.
Proof.
  apply select_callback_backed; [apply registry_backed_state0 |].
  vm_compute. eauto.
Defined.

(** ** Reconciliation, further *)

Lemma assign_lookup_inv (rows : list (Z * Z)) (reg : gmap Z Z) (k v : Z) :
  foldl assign reg rows !! k = Some v → (k, v) ∈ rows ∨ reg !! k = Some v.
Proof.
  revert reg. induction rows as [|[k' v'] rows IH]; intros reg H; [by right|].
  simpl in H. apply IH in H as [H|H].
  - left. by right.
  - rewrite assign_pair in H. destruct (decide (k' = k)) as [->|Hne].
    + rewrite lookup_insert_eq in H. injection H as ->. left. by left.
    + rewrite lookup_insert_ne in H by done. by right.
Qed.

Lemma load_fold_invites (g : Guild) (rows : list (Z * Z)) (db : Db.t)
    (reg : gmap Z Z) :
  Db.user_invites (foldl (load_step g) (db, reg) rows).1 = Db.user_invites db.
Proof.
  revert db reg. induction rows as [|[cid owner] rows IH]; intros db reg; [done|].
  simpl. destruct (get_channel g cid); by rewrite IH.
Qed.

(** X8: at startup, when the registry is empty and the table respects its
    primary key, [load_voice_channels] leaves a registry that holds
    exactly the rows kept in the store, each of a channel the guild has;
    in particular every entry is backed by its row. *)
Theorem load_at_startup (s : State) :
  voice_channels s = ∅ →
  NoDup (Db.channel_id <$> Db.voice_channels (db_conn s)) →
  let s' := load_voice_channels s in
  (∀ cid owner, voice_channels s' !! cid = Some owner ↔
                (cid, owner) ∈ Db.select_channels (db_conn s')) ∧
  (∀ cid owner, voice_channels s' !! cid = Some owner →
                is_Some (get_channel (guild s) cid)) ∧
  registry_backed s'.
Proof.
  intros Hempty Hnd.
  assert (voice_channels (load_voice_channels s)
          = foldl assign ∅ (Db.select_channels (db_conn (load_voice_channels s))))
    as Hreg.
  { rewrite load_voice_channels_unfold. simpl.
    rewrite load_pass_rows, load_fold_registry. by rewrite Hempty. }
  assert (Db.select_channels (db_conn (load_voice_channels s))
          = filter (live (guild s)) (Db.select_channels (db_conn s))) as Hrows.
  { rewrite load_voice_channels_unfold. simpl. apply load_pass_rows. }
  assert (NoDup (Db.select_channels (db_conn (load_voice_channels s))).*1)
    as Hnd'.
  { rewrite Hrows. apply NoDup_filter_keys. unfold Db.select_channels.
    by rewrite <- list_fmap_compose. }
  assert (∀ cid owner, voice_channels (load_voice_channels s) !! cid = Some owner ↔
            (cid, owner) ∈ Db.select_channels (db_conn (load_voice_channels s)))
    as Hiff.
  { intros cid owner. rewrite Hreg. split.
    - intros H. apply assign_lookup_inv in H as [H|H]; [done|].
      by rewrite lookup_empty in H.
    - by apply assign_lookup_row. }
  simpl. split; [exact Hiff|]. split.
  - intros cid owner H. apply Hiff in H. rewrite Hrows in H.
    by apply list_elem_of_filter in H as [H _].
  - intros cid owner H. apply Hiff in H.
    unfold Db.select_channels in H.
    unfold Db.select_channels in Hnd'. unfold Db.select_owner.
    induction (Db.voice_channels (db_conn (load_voice_channels s)))
      as [|r l IH]; [by apply elem_of_nil in H|].
    rewrite !fmap_cons in Hnd'. apply NoDup_cons in Hnd' as [Hfresh Hnd'].
    rewrite fmap_cons in H. simpl. unfold Db.has_channel at 1.
    apply elem_of_cons in H as [H|H].
    + injection H as -> ->. by rewrite Z.eqb_refl.
    + destruct (Db.channel_id r =? cid) eqn:E; [|by apply IH].
      apply Z.eqb_eq in E. exfalso. apply Hfresh.
      apply list_elem_of_fmap. exists (cid, owner). by subst.
Qed.

Lemma load_at_startup_witness :
  voice_channels (load_voice_channels (set_registry state0 ∅)) !! 100 = Some 10.
Proof.
  destruct (load_at_startup (set_registry state0 ∅)) as (H & _ & _);
    [reflexivity | vm_compute; repeat constructor; set_solver |].
  apply H. vm_compute. left.
Defined.

(** X9: a pass of [load_voice_channels] never touches the invitation
    history, the cooldowns or the guild; it keeps the blocked-user rows of
    every channel the guild still has and of every channel that has no
    stored row; and a registry entry of a channel without stored row is
    left as it is. *)
Theorem load_voice_channels_frame (s : State) :
  let s' := load_voice_channels s in
  Db.user_invites (db_conn s') = Db.user_invites (db_conn s) ∧
  cooldowns s' = cooldowns s ∧
  guild s' = guild s ∧
  (∀ p, p ∈ Db.blocked_users (db_conn s) →
        is_Some (get_channel (guild s) p.1) ∨
          Db.select_owner (db_conn s) p.1 = None →
        p ∈ Db.blocked_users (db_conn s')) ∧
  (∀ cid, Db.select_owner (db_conn s) cid = None →
          voice_channels s' !! cid = voice_channels s !! cid).
Proof.
  simpl. rewrite load_voice_channels_unfold. simpl.
  split; [apply load_fold_invites|]. do 2 (split; [done|]). split.
  - intros [c u] Hin Hkeep. rewrite load_fold_blocked.
    apply list_elem_of_filter. split; [|done]. simpl in *.
    unfold gone_ids. intros Hg.
    apply list_elem_of_fmap in Hg as ([c' o'] & Hc & Hf). simpl in Hc. subst c'.
    apply list_elem_of_filter in Hf as [Hnl Hrow].
    destruct Hkeep as [Hlive | Hnone]; [by apply Hnl|].
    unfold Db.select_channels in Hrow.
    apply list_elem_of_fmap in Hrow as (r & Hr & Hin').
    unfold Db.select_owner in Hnone.
    destruct (find (Db.has_channel c) (Db.voice_channels (db_conn s)))
      as [r'|] eqn:F; [done|].
    assert (Db.has_channel c r = false) as Hf
      by (apply (find_none _ _ F r); by apply list_elem_of_In).
    unfold Db.has_channel in Hf. injection Hr as -> _.
    by rewrite Z.eqb_refl in Hf.
  - intros cid Hnone. rewrite load_fold_registry.
    apply assign_lookup_fresh. intros Hin.
    apply list_elem_of_fmap in Hin as ([c o'] & Hc & Hf). simpl in Hc. subst c.
    apply list_elem_of_filter in Hf as [_ Hrow].
    unfold Db.select_channels in Hrow.
    apply list_elem_of_fmap in Hrow as (r & Hr & Hin').
    unfold Db.select_owner in Hnone.
    destruct (find (Db.has_channel cid) (Db.voice_channels (db_conn s)))
      as [r'|] eqn:F; [done|].
    assert (Db.has_channel cid r = false) as Hf
      by (apply (find_none _ _ F r); by apply list_elem_of_In).
    unfold Db.has_channel in Hf. injection Hr as -> _.
    by rewrite Z.eqb_refl in Hf.
Qed.

Lemma load_voice_channels_frame_witness :
  voice_channels (load_voice_channels state_stale) !! 7
    = voice_channels state_stale !! 7.
Proof.
  destruct (load_voice_channels_frame state_stale) as (_ & _ & _ & _ & H).
  apply H. reflexivity.
Defined.

(** ** The buttons, further *)

Lemma toggle_lock_frame (s : State) (cid : Z) :
  let s' := (toggle_lock s cid).1 in
  voice_channels s' = voice_channels s ∧ db_conn s' = db_conn s ∧
  cooldowns s' = cooldowns s ∧ members (guild s') = members (guild s) ∧
  (∀ c, c ≠ cid → get_channel (guild s') c = get_channel (guild s) c) ∧
  user_limit <$> get_channel (guild s') cid
    = user_limit <$> get_channel (guild s) cid.
Proof.
  unfold toggle_lock. destruct (get_channel (guild s) cid) as [ch|] eqn:E.
  - simpl. unfold set_permissions, get_channel in *. rewrite E. simpl.
    repeat split; try done.
    + intros c Hc. by rewrite lookup_insert_ne.
    + by rewrite lookup_insert_eq.
  - simpl. by rewrite E.
Qed.

(** X10: of the seven buttons only Lock changes anything.  Every other
    button returns the state as it was, whoever presses it; Lock leaves
    the registry, the store, the cooldowns, the members, the user limit
    and every channel other than the one the presser is in untouched. *)
Theorem press_changes_only_the_lock (b : ButtonKind) (s : State) (user : Z) :
  (b ≠ Lock → (press b s user).1 = s) ∧
  (let s' := (press b s user).1 in
   voice_channels s' = voice_channels s ∧ db_conn s' = db_conn s ∧
   cooldowns s' = cooldowns s ∧ members (guild s') = members (guild s) ∧
   (∀ c, voice_channel_of (guild s) user ≠ Some c →
         get_channel (guild s') c = get_channel (guild s) c) ∧
   (∀ c, user_limit <$> get_channel (guild s') c
           = user_limit <$> get_channel (guild s) c)).
Proof.
  assert (∀ c, callback s user = (Cleared c, []) →
               voice_channel_of (guild s) user = Some c) as Hin.
  { intros c. unfold callback.
    destruct (voice_channel_of (guild s) user) as [c'|]; [|done].
    repeat case_bool_decide; try done; destruct (negb _); try done;
      destruct (get_channel (guild s) c'); try done; by intros [= ->]. }
  unfold press. destruct (callback s user) as [res sent] eqn:Ecb.
  destruct (truthy res) as [cid|] eqn:Et; [|done].
  assert (res = Cleared cid ∧ sent = []) as [-> ->].
  { destruct res as [|c]; [done|]. simpl in Et.
    destruct (c =? 0); [done|]. injection Et as ->.
    revert Ecb. unfold callback.
    destruct (voice_channel_of (guild s) user) as [c'|]; [|done].
    repeat case_bool_decide; try done; destruct (negb _); try done;
      destruct (get_channel (guild s) c'); try done; by intros [= -> <-]. }
  specialize (Hin cid eq_refl).
  destruct b; try (split; [intros _|];
    repeat match goal with |- context [match ?l with [] => _ | _ => _ end] =>
      destruct l end; done).
  split; [done|].
  pose proof (toggle_lock_frame s cid) as Hfr.
  destruct (toggle_lock s cid) as [s' out]. simpl in *.
  destruct Hfr as (H1 & H2 & H3 & H4 & H5 & H6).
  repeat split; try done.
  - intros c Hc. apply H5. congruence.
  - intros c. destruct (decide (c = cid)) as [->|Hne]; [done|].
    by rewrite H5.
Qed.

Lemma press_changes_only_the_lock_witness :
  (press Kick state0 10).1 = state0.
Proof.
  destruct (press_changes_only_the_lock Kick state0 10) as [H _].
  apply H. discriminate.
Defined.

Lemma other_members_spec (g : Guild) (cid user m : Z) :
  m ∈ other_members g cid user ↔ voice_channel_of g m = Some cid ∧ m ≠ user.
Proof.
  unfold other_members, voice_channel_of. split.
  - intros H. apply list_elem_of_fmap in H as ([m' mb] & -> & H).
    apply list_elem_of_filter in H as [[Hv Hne] H]. simpl in *.
    apply elem_of_map_to_list in H. by rewrite H.
  - intros [Hv Hne]. destruct (members g !! m) as [mb|] eqn:E; [|done].
    simpl in Hv. apply list_elem_of_fmap. exists (m, mb). split; [done|].
    apply list_elem_of_filter. split; [done|]. by apply elem_of_map_to_list.
Qed.

Lemma other_members_NoDup (g : Guild) (cid user : Z) :
  NoDup (other_members g cid user).
Proof.
  unfold other_members.
  apply (sublist_NoDup _ ((map_to_list (members g)).*1));
    [apply NoDup_fst_map_to_list|].
  apply fmap_sublist, sublist_filter.
Qed.

(** X11: when the owner presses Kick or Transfer, the menu that is opened
    is given the members who are in the owner's channel other than the
    owner, each of them once and nobody else, for the owner's channel and
    the action of the button; when there is no such member the answer is
    that nobody else is in the channel, and no menu is opened.  The state
    is left as it was. *)
Theorem member_menu_choices (s : State) (user cid : Z) :
  callback s user = (Cleared cid, []) → cid ≠ 0 →
  ∃ ms,
    NoDup ms ∧
    (∀ m, m ∈ ms ↔ voice_channel_of (guild s) m = Some cid ∧ m ≠ user) ∧
    (ms = [] ↔ ∀ m, voice_channel_of (guild s) m = Some cid → m = user) ∧
    press Kick s user
      = (s, [match ms with
             | [] => NoOtherMembers
             | _ => OpenMemberSelect cid ms ActKick
             end]) ∧
    press Transfer s user
      = (s, [match ms with
             | [] => NoOtherMembers
             | _ => OpenMemberSelect cid ms ActTransfer
             end]).
Proof.
  intros Hcb Hnz. exists (other_members (guild s) cid user).
  split; [apply other_members_NoDup|].
  split; [intros m; apply other_members_spec|].
  split.
  { split.
    - intros E m Hv. destruct (decide (m = user)) as [|Hne]; [done|].
      assert (m ∈ other_members (guild s) cid user) as H
        by by apply other_members_spec.
      rewrite E in H. by apply elem_of_nil in H.
    - intros H. destruct (other_members (guild s) cid user) as [|m l] eqn:E;
        [done|].
      assert (m ∈ other_members (guild s) cid user) as Hm
        by (rewrite E; by left).
      apply other_members_spec in Hm as [Hv Hne]. by apply H in Hv. }
  unfold press. rewrite Hcb. simpl.
  destruct (cid =? 0) eqn:E0; [apply Z.eqb_eq in E0; done|].
  by destruct (other_members (guild s) cid user).
Qed.

Lemma member_menu_choices_witness :
  ∃ ms, (∀ m, m ∈ ms ↔ voice_channel_of (guild state0) m = Some 100 ∧ m ≠ 10) ∧
        press Kick state0 10
          = (state0, [match ms with
                      | [] => NoOtherMembers
                      | _ => OpenMemberSelect 100 ms ActKick
                      end]).
Proof.
  destruct (member_menu_choices state0 10 100) as (ms & _ & H1 & _ & H2 & _);
    [reflexivity | discriminate |].
  exists ms. split; [exact H1 | exact H2].
Defined.

Lemma toggle_lock_connect (s : State) (cid : Z) :
  is_Some (get_channel (guild s) cid) →
  default_role (guild (toggle_lock s cid).1) = default_role (guild s) ∧
  is_Some (get_channel (guild (toggle_lock s cid).1) cid) ∧
  (locked (guild s) cid →
   connect_of (guild (toggle_lock s cid).1) cid (default_role (guild s)) = None ∧
   (toggle_lock s cid).2 = [ChannelUnlocked]) ∧
  (¬ locked (guild s) cid →
   connect_of (guild (toggle_lock s cid).1) cid (default_role (guild s))
     = Some false ∧
   (toggle_lock s cid).2 = [ChannelLocked]).
Proof.
  intros [ch Hch]. unfold locked, toggle_lock, connect_of. rewrite Hch. simpl.
  split.
  { unfold set_permissions. by destruct (channels (guild s) !! cid). }
  split.
  { apply set_permissions_is_Some. eauto. }
  pose proof (set_permissions_connect (guild s) cid (default_role (guild s)))
    as Hset. unfold connect_of in Hset.
  split; intros Hl.
  - rewrite bool_decide_eq_true_2 by done. rewrite Hset by eauto. done.
  - rewrite bool_decide_eq_false_2 by done. rewrite Hset by eauto. done.
Qed.

(** X12: the Lock button toggles.  On an existing channel it locks an
    unlocked channel and unlocks a locked one, and the answer names the new
    state.  Unlocking does not grant: after lock and unlock the default
    role inherits the connect right, also where it had been granted
    explicitly, as it is at creation. *)
Theorem toggle_lock_alternates (s : State) (cid : Z) :
  is_Some (get_channel (guild s) cid) →
  let r1 := toggle_lock s cid in
  let r2 := toggle_lock r1.1 cid in
  (locked (guild r1.1) cid ↔ ¬ locked (guild s) cid) ∧
  (r1.2 = [ChannelLocked] ↔ ¬ locked (guild s) cid) ∧
  (¬ locked (guild s) cid →
   connect_of (guild r2.1) cid (default_role (guild s)) = None ∧
   r2.2 = [ChannelUnlocked]) ∧
  (locked (guild s) cid → locked (guild r2.1) cid).
Proof.
  intros Hch. simpl.
  destruct (toggle_lock_connect s cid Hch) as (Hdr & Hch1 & Hl & Hu).
  destruct (toggle_lock_connect (toggle_lock s cid).1 cid Hch1)
    as (Hdr2 & _ & Hl2 & Hu2).
  rewrite Hdr in Hl2, Hu2.
  assert (Decision (locked (guild s) cid)) as [HL|HU]
    by (unfold locked; apply _).
  - destruct (Hl HL) as [Hc Hr].
    assert (¬ locked (guild (toggle_lock s cid).1) cid) as Hn1.
    { unfold locked. rewrite Hdr, Hc. done. }
    destruct (Hu2 Hn1) as [Hc2 Hr2].
    repeat split; try done.
    + by rewrite Hr.
    + unfold locked. by rewrite Hdr2, Hdr.
  - destruct (Hu HU) as [Hc Hr].
    assert (locked (guild (toggle_lock s cid).1) cid) as Hl1.
    { unfold locked. by rewrite Hdr. }
    destruct (Hl2 Hl1) as [Hc2 Hr2].
    repeat split; try done.
Qed.

Lemma toggle_lock_alternates_witness :
  locked (guild (toggle_lock state0 100).1) 100 ∧
  connect_of (guild (toggle_lock (toggle_lock state0 100).1 100).1) 100 1 = None.
Proof.
  destruct (toggle_lock_alternates state0 100) as (H1 & _ & H3 & _);
    [vm_compute; eauto |].
  assert (¬ locked (guild state0) 100) as Hn by (vm_compute; discriminate).
  split; [by apply H1 | by apply H3].
Defined.

(** ** Ownership transfer, further *)

Lemma set_permissions_overwrite_of (g : Guild) (cid target : Z)
    (ow : PermissionOverwrite) (t : Z) :
  is_Some (get_channel g cid) →
  overwrite_of (set_permissions g cid target ow) cid t
    = if decide (t = target) then Some ow else overwrite_of g cid t.
Proof.
  intros [ch Hch]. unfold overwrite_of, set_permissions, get_channel in *.
  rewrite Hch. simpl. rewrite lookup_insert_eq. simpl.
  unfold overwrites_for. simpl. case_decide as Ht.
  - subst. by rewrite lookup_insert_eq.
  - by rewrite lookup_insert_ne.
Qed.

(** X13: a transfer gives the new owner the four elevated rights and
    leaves the old owner with the connect right alone; every other
    overwrite of the channel, the user limit and the members are unchanged.
    The menu does not stop a member being chosen who has left the channel,
    and a transfer to oneself strips one's own elevated rights while one
    stays the owner. *)
Theorem transfer_rights (s : State) (R A B : Z) :
  is_Some (get_channel (guild s) R) →
  is_Some (get_member (guild s) B) →
  let s' := (MemberSelectView_select_callback s R ActTransfer A B).1 in
  (A ≠ B →
   overwrite_of (guild s') R B
     = Some (mkOverwrite (Some true) (Some true) (Some true) (Some true))) ∧
  overwrite_of (guild s') R A = Some (overwrite_connect (Some true)) ∧
  (∀ t, t ≠ A → t ≠ B → overwrite_of (guild s') R t = overwrite_of (guild s) R t) ∧
  user_limit <$> get_channel (guild s') R = user_limit <$> get_channel (guild s) R ∧
  members (guild s') = members (guild s) ∧
  voice_channels s' !! R = Some B.
Proof.
  intros Hch [m Hm]. unfold MemberSelectView_select_callback.
  destruct Hch as [ch Hch]. rewrite Hch, Hm. simpl.
  pose proof (set_permissions_is_Some (guild s) R B
    (mkOverwrite (Some true) (Some true) (Some true) (Some true))
    ltac:(eauto)) as Hch1.
  split; [|split; [|split; [|split; [|split]]]].
  - intros Hne. rewrite set_permissions_overwrite_of by done.
    rewrite decide_False by congruence.
    rewrite set_permissions_overwrite_of by eauto. by rewrite decide_True.
  - rewrite set_permissions_overwrite_of by done. by rewrite decide_True.
  - intros t HA HB. rewrite set_permissions_overwrite_of by done.
    rewrite decide_False by done.
    rewrite set_permissions_overwrite_of by eauto. by rewrite decide_False.
  - unfold set_permissions, get_channel in *. rewrite Hch. simpl.
    rewrite lookup_insert_eq. simpl. by rewrite lookup_insert_eq.
  - by rewrite !set_permissions_members.
  - apply lookup_insert_eq.
Qed.

Lemma transfer_rights_witness :
  overwrite_of (guild (MemberSelectView_select_callback state0 100
                         ActTransfer 10 12).1) 100 10
    = Some (overwrite_connect (Some true)) ∧
  voice_channels (MemberSelectView_select_callback state0 100
                    ActTransfer 10 12).1 !! 100 = Some 12 ∧
  voice_channel_of guild0 12 = None.
Proof.
  destruct (transfer_rights state0 100 10 12) as (_ & H & _ & _ & _ & H');
    [vm_compute; eauto | vm_compute; eauto |].
  split; [exact H | split; [exact H' | reflexivity]].
Defined.

Lemma transfer_state (s : State) (R A B : Z) :
  is_Some (get_channel (guild s) R) →
  is_Some (get_member (guild s) B) →
  let s' := (MemberSelectView_select_callback s R ActTransfer A B).1 in
  voice_channels s' = <[R := B]> (voice_channels s) ∧
  config s' = config s ∧
  members (guild s') = members (guild s) ∧
  is_Some (get_channel (guild s') R).
Proof.
  intros [ch Hch] [m Hm]. unfold MemberSelectView_select_callback.
  rewrite Hch, Hm. simpl. repeat split.
  - by rewrite !set_permissions_members.
  - apply set_permissions_is_Some, set_permissions_is_Some. eauto.
Qed.



(** X15: the member menu does not check again who uses it.  A Kick menu
    that the old owner opened before a transfer still works for them after
    it, even on the new owner: the new owner is moved out of the channel
    they now own, and the registry is not consulted. *)
Theorem stale_kick_menu_after_transfer (s : State) (R A B : Z) :
  is_Some (get_channel (guild s) R) →
  voice_channel_of (guild s) B = Some R →
  let s' := (MemberSelectView_select_callback s R ActTransfer A B).1 in
  let s'' := (MemberSelectView_select_callback s' R ActKick A B).1 in
  voice_channels s' !! R = Some B ∧
  voice_channel_of (guild s'') B = None ∧
  voice_channels s'' !! R = Some B.
Proof.
  intros Hch Hv.
  assert (is_Some (get_member (guild s) B)) as Hm.
  { unfold voice_channel_of, get_member in *.
    destruct (members (guild s) !! B); [eauto | done]. }
  destruct (transfer_state s R A B Hch Hm) as (Hreg & _ & Hmem & Hch').
  simpl in *. split; [rewrite Hreg; apply lookup_insert_eq|].
  unfold MemberSelectView_select_callback at 1 3.
  destruct Hch' as [ch' Hch']. rewrite Hch'.
  unfold get_member. rewrite Hmem.
  unfold voice_channel_of in Hv.
  destruct (members (guild s) !! B) as [mb|] eqn:E; [|done]. simpl in Hv.
  rewrite bool_decide_eq_true_2 by done. simpl. split.
  - unfold voice_channel_of, move_to. rewrite Hmem, E. simpl.
    by rewrite lookup_insert_eq.
  - rewrite Hreg. apply lookup_insert_eq.
Qed.

Lemma stale_kick_menu_after_transfer_witness :
  voice_channel_of
    (guild (MemberSelectView_select_callback
              (MemberSelectView_select_callback state0 100 ActTransfer 10 11).1
              100 ActKick 10 11).1) 11 = None.
Proof.
  destruct (stale_kick_menu_after_transfer state0 100 10 11) as (_ & H & _);
    [vm_compute; eauto | reflexivity | exact H].
Defined.

(** ** Invitations, further *)

Lemma latest_None (ts : list Z) : Db.latest ts = None ↔ ts = [].
Proof.
  destruct ts as [|t0 rest]; [done|]. simpl.
  by destruct (Db.latest rest).
Qed.

Lemma latest_upper (ts : list Z) (m : Z) :
  Db.latest ts = Some m → ∀ t0, t0 ∈ ts → t0 ≤ m.
Proof.
  revert m. induction ts as [|a rest IH]; intros m H t0 Hin.
  - by apply elem_of_nil in Hin.
  - simpl in H. destruct (Db.latest rest) as [m'|] eqn:E.
    + injection H as <-. apply elem_of_cons in Hin as [->|Hin]; [lia|].
      specialize (IH m' eq_refl t0 Hin). lia.
    + injection H as <-. apply latest_None in E. subst rest.
      apply elem_of_cons in Hin as [->|Hin]; [lia|].
      by apply elem_of_nil in Hin.
Qed.

Lemma invite_matches_conflicts (inviter invited cid : Z) (r : Db.InviteRow) :
  Db.invite_matches inviter invited (Some cid) r
    = Db.invite_conflicts inviter invited (Some cid) r.
Proof.
  unfold Db.invite_matches, Db.invite_conflicts.
  destruct (Db.inv_channel_id r); [done|]. by rewrite andb_false_r.
Qed.

Lemma last_invite_conflict (db : Db.t) (inviter invited cid : Z) :
  is_Some (Db.select_last_invite db inviter invited (Some cid)) ↔
  existsb (Db.invite_conflicts inviter invited (Some cid)) (Db.user_invites db)
    = true.
Proof.
  unfold Db.select_last_invite.
  induction (Db.user_invites db) as [|r l IH].
  - simpl. split; [intros [? H]; discriminate H | intros H; discriminate H].
  - cbn [List.filter existsb]. rewrite invite_matches_conflicts.
    destruct (Db.invite_conflicts inviter invited (Some cid) r).
    + split; [intros _; reflexivity|]. intros _. simpl.
      destruct (Db.latest _); eauto.
    + exact IH.
Qed.

Lemma invite_granted (s : State) (cid actor user : Z) (o : InviteObserved) :
  user ≠ actor →
  check_invite_cooldown s (inv_query_ok o) (inv_now o) actor user (Some cid)
    = false →
  is_Some (get_channel (guild s) cid) →
  user ∉ get_blocked_users s cid →
  InviteUserModal_on_submit s cid actor (Some user) o
    = (save_invite_timestamp
         (set_guild s (set_permissions (guild s) cid user
                         (overwrite_connect (Some true))))
         (inv_now o) actor user (Some cid),
       [InviteSucceeded]).
Proof.
  intros Hne Hcd [ch Hch] Hb. unfold InviteUserModal_on_submit.
  rewrite bool_decide_eq_false_2 by done. rewrite Hcd, Hch.
  by rewrite bool_decide_eq_false_2.
Qed.

Lemma invite_after_window (s : State) (cid actor user last now : Z) :
  user ≠ actor →
  is_Some (get_channel (guild s) cid) →
  user ∉ get_blocked_users s cid →
  Db.select_last_invite (db_conn s) actor user (Some cid) = Some last →
  invite_cooldown_duration ≤ now - last →
  InviteUserModal_on_submit s cid actor (Some user) (mkInviteObserved now true)
    = (set_guild s (set_permissions (guild s) cid user
                      (overwrite_connect (Some true))),
       [InviteSucceeded]).
Proof.
  intros Hne Hch Hb Hlast Hle.
  rewrite invite_granted; try done.
  - rewrite save_invite_timestamp_conflict; [done|]. simpl.
    apply last_invite_conflict. rewrite Hlast. eauto.
  - unfold check_invite_cooldown. simpl. rewrite Hlast.
    apply bool_decide_eq_false_2. lia.
Qed.

(** X16: a first invitation of [user] by [actor] into a channel appends
    one row stamped with the current time and grants the connect right.
    Asked again within two hours of it, the invitation is refused and
    nothing changes.  Asked again once the two hours are over, it is
    granted but no row can be added for the same triple. *)
Theorem first_invite_then_repeat (s : State) (cid actor user now now' : Z) :
  user ≠ actor →
  is_Some (get_channel (guild s) cid) →
  user ∉ get_blocked_users s cid →
  Db.select_last_invite (db_conn s) actor user (Some cid) = None →
  let r := InviteUserModal_on_submit s cid actor (Some user)
             (mkInviteObserved now true) in
  let again := InviteUserModal_on_submit r.1 cid actor (Some user)
                 (mkInviteObserved now' true) in
  r.2 = [InviteSucceeded] ∧
  Db.user_invites (db_conn r.1)
    = Db.user_invites (db_conn s) ++ [Db.mkInviteRow actor user now (Some cid)] ∧
  connect_of (guild r.1) cid user = Some true ∧
  (now' - now < invite_cooldown_duration → again = (r.1, [InviteCooldown])) ∧
  (invite_cooldown_duration ≤ now' - now →
   again.2 = [InviteSucceeded] ∧
   Db.user_invites (db_conn again.1) = Db.user_invites (db_conn r.1)).
Proof.
  intros Hne Hch Hb Hnone.
  assert (existsb (Db.invite_conflicts actor user (Some cid))
            (Db.user_invites (db_conn s)) = false) as Hex.
  { destruct (existsb _ _) eqn:E; [|done].
    apply last_invite_conflict in E as [? E]. congruence. }
  assert (InviteUserModal_on_submit s cid actor (Some user)
            (mkInviteObserved now true)
          = (set_db (set_guild s (set_permissions (guild s) cid user
                                    (overwrite_connect (Some true))))
               (Db.mk (Db.voice_channels (db_conn s))
                      (Db.blocked_users (db_conn s))
                      (Db.user_invites (db_conn s)
                         ++ [Db.mkInviteRow actor user now (Some cid)])),
             [InviteSucceeded])) as Er.
  { rewrite invite_granted; try done.
    - unfold save_invite_timestamp, Db.insert_invite. simpl. by rewrite Hex.
    - unfold check_invite_cooldown. simpl. by rewrite Hnone. }
  cbv zeta. rewrite Er. cbn [fst snd].
  remember (set_db _ _) as s1 eqn:Es1.
  assert (Db.user_invites (db_conn s1)
          = Db.user_invites (db_conn s)
              ++ [Db.mkInviteRow actor user now (Some cid)]) as Hrows
    by (by rewrite Es1).
  assert (Db.select_last_invite (db_conn s1) actor user (Some cid) = Some now)
    as Hlast.
  { unfold Db.select_last_invite in *. rewrite Hrows.
    rewrite List.filter_app. simpl.
    unfold Db.invite_matches at 2. simpl. rewrite !Z.eqb_refl. simpl.
    apply latest_None in Hnone. apply map_eq_nil in Hnone.
    by rewrite Hnone. }
  assert (is_Some (get_channel (guild s1) cid)) as Hch1
    by (rewrite Es1; by apply set_permissions_is_Some).
  assert (user ∉ get_blocked_users s1 cid) as Hb1 by (by rewrite Es1).
  split; [done|]. split; [done|]. split.
  { rewrite Es1.
    by apply (set_permissions_connect _ cid user (overwrite_connect (Some true))). }
  split.
  - intros Hlt. unfold InviteUserModal_on_submit.
    rewrite bool_decide_eq_false_2 by done.
    unfold check_invite_cooldown. cbn [inv_query_ok inv_now]. rewrite Hlast.
    by rewrite bool_decide_eq_true_2.
  - intros Hle. rewrite (invite_after_window s1 cid actor user now now'); done.
Qed.

Lemma first_invite_then_repeat_witness :
  let r := InviteUserModal_on_submit state0 100 10 (Some 11)
             (mkInviteObserved 0 true) in
  InviteUserModal_on_submit r.1 100 10 (Some 11) (mkInviteObserved one_hour true)
    = (r.1, [InviteCooldown]).
Proof.
  destruct (first_invite_then_repeat state0 100 10 11 0 one_hour)
    as (_ & _ & _ & H & _);
    [discriminate | vm_compute; eauto | vm_compute; apply not_elem_of_nil
    | reflexivity |].
  apply H. vm_compute. reflexivity.
Defined.

(** X17: once the last recorded invitation of a triple is two hours old,
    the limit is gone for good.  The invitation is granted, the table is
    left as it is because of its UNIQUE constraint, and so the check finds
    the same old row at every later time. *)
Theorem expired_invite_never_limits_again (s : State)
    (cid actor user last now : Z) :
  user ≠ actor →
  is_Some (get_channel (guild s) cid) →
  user ∉ get_blocked_users s cid →
  Db.select_last_invite (db_conn s) actor user (Some cid) = Some last →
  invite_cooldown_duration ≤ now - last →
  let r := InviteUserModal_on_submit s cid actor (Some user)
             (mkInviteObserved now true) in
  r.2 = [InviteSucceeded] ∧
  db_conn r.1 = db_conn s ∧
  (∀ now', now ≤ now' →
           check_invite_cooldown r.1 true now' actor user (Some cid) = false).
Proof.
  intros Hne Hch Hb Hlast Hle. cbv zeta.
  rewrite (invite_after_window s cid actor user last now) by done. simpl.
  repeat split. intros now' Hnow.
  unfold check_invite_cooldown. simpl. rewrite Hlast.
  apply bool_decide_eq_false_2. lia.
Qed.

Lemma expired_invite_never_limits_again_witness :
  let r := InviteUserModal_on_submit state_invited 100 10 (Some 11)
             (mkInviteObserved (2 * one_hour) true) in
  db_conn r.1 = db_conn state_invited ∧
  check_invite_cooldown r.1 true (2 * one_hour + 1) 10 11 (Some 100) = false.
Proof.
  destruct (expired_invite_never_limits_again state_invited 100 10 11 0
              (2 * one_hour)) as (_ & H1 & H2);
    [discriminate | vm_compute; eauto | vm_compute; apply not_elem_of_nil
    | reflexivity | vm_compute; discriminate |].
  split; [exact H1 | apply H2; lia].
Defined.

(** ** Block list, further *)

Lemma set_permissions_move_to (g : Guild) (cid target : Z)
    (ow : PermissionOverwrite) (uid : Z) (dest : option Z) :
  set_permissions (move_to g uid dest) cid target ow
    = move_to (set_permissions g cid target ow) uid dest.
Proof.
  unfold set_permissions, move_to.
  destruct (members g !! uid) as [m|] eqn:Em,
           (channels g !! cid) as [ch|] eqn:Ech; simpl;
    rewrite ?Em, ?Ech; done.
Qed.

Lemma insert_or_ignore_blocked_elem (db : Db.t) (cid uid : Z) :
  (cid, uid) ∈ Db.blocked_users (Db.insert_or_ignore_blocked db cid uid).
Proof.
  unfold Db.insert_or_ignore_blocked. case_bool_decide; [done|]. simpl.
  apply elem_of_app. right. by left.
Qed.

Lemma blocked_users_listed (s : State) (cid uid : Z) :
  uid ∈ get_blocked_users s cid ↔ (cid, uid) ∈ Db.blocked_users (db_conn s).
Proof.
  unfold get_blocked_users, Db.select_blocked. split.
  - intros H. apply list_elem_of_fmap in H as ([c u] & -> & H).
    apply list_elem_of_filter in H as [Hc H]. simpl in *. by subst.
  - intros H. apply list_elem_of_fmap. exists (cid, uid). split; [done|].
    by apply list_elem_of_filter.
Qed.

Lemma block_user_guild (s : State) (cid uid : Z) :
  is_Some (get_channel (guild s) cid) →
  is_Some (get_member (guild s) uid) →
  guild (block_user s cid uid)
    = (if bool_decide (voice_channel_of (guild s) uid = Some cid)
       then move_to (set_permissions (guild s) cid uid
                       (overwrite_connect (Some false))) uid None
       else set_permissions (guild s) cid uid (overwrite_connect (Some false))).
Proof.
  intros [ch Hch] [m Hm]. unfold block_user. simpl. rewrite Hch, Hm.
  unfold voice_channel_of. rewrite set_permissions_members.
  by case_bool_decide.
Qed.

Lemma block_user_unknown (s : State) (cid uid : Z) :
  get_channel (guild s) cid = None ∨ get_member (guild s) uid = None →
  guild (block_user s cid uid) = guild s.
Proof.
  unfold block_user. simpl. intros [H|H]; rewrite H; [done|].
  by destruct (get_channel (guild s) cid).
Qed.

Lemma block_user_frame (s : State) (cid uid : Z) :
  voice_channels (block_user s cid uid) = voice_channels s ∧
  cooldowns (block_user s cid uid) = cooldowns s ∧
  config (block_user s cid uid) = config s.
Proof.
  unfold block_user. simpl.
  destruct (get_channel (guild s) cid), (get_member (guild s) uid);
    try case_bool_decide; done.
Qed.

(** X18: [block_user] lists the member as blocked whether or not the
    platform knows the channel and the member.  When it knows both, the
    member is denied the connect right and is no longer in the channel,
    and nobody else is moved.  Blocking again changes nothing, and the
    registry is never touched. *)
Theorem block_user_effect (s : State) (cid uid : Z) :
  let sb := block_user s cid uid in
  uid ∈ get_blocked_users sb cid ∧
  (is_Some (get_channel (guild s) cid) → is_Some (get_member (guild s) uid) →
   connect_of (guild sb) cid uid = Some false ∧
   voice_channel_of (guild sb) uid ≠ Some cid) ∧
  (∀ m, m ≠ uid →
        voice_channel_of (guild sb) m = voice_channel_of (guild s) m) ∧
  voice_channels sb = voice_channels s ∧
  block_user sb cid uid = sb.
Proof.
  destruct (block_user_frame s cid uid) as (Hreg & Hcd & Hcfg).
  simpl. split.
  { apply blocked_users_listed. rewrite block_user_db.
    apply insert_or_ignore_blocked_elem. }
  split.
  { intros Hch Hm. rewrite block_user_guild by done.
    pose proof (set_permissions_connect (guild s) cid uid
                  (overwrite_connect (Some false)) Hch) as Hc.
    destruct Hm as [m Hm]. unfold get_member in Hm.
    case_bool_decide as Hin.
    - split.
      + unfold connect_of, get_channel in *. by rewrite move_to_channels.
      + unfold voice_channel_of, move_to. rewrite set_permissions_members, Hm.
        simpl. by rewrite lookup_insert_eq.
    - split; [done|]. unfold voice_channel_of in *.
      by rewrite set_permissions_members. }
  split.
  { intros m Hne.
    destruct (get_channel (guild s) cid) as [ch|] eqn:Ech;
      [destruct (get_member (guild s) uid) as [mb|] eqn:Em|].
    - rewrite block_user_guild by eauto. unfold get_member in Em.
      case_bool_decide; unfold voice_channel_of, move_to;
        rewrite ?set_permissions_members, ?Em; simpl;
        rewrite ?lookup_insert_ne by done; done.
    - rewrite block_user_unknown; [done | by right].
    - rewrite block_user_unknown; [done | by left]. }
  split; [exact Hreg|].
  assert (db_conn (block_user (block_user s cid uid) cid uid)
          = db_conn (block_user s cid uid)) as Hdb.
  { rewrite !block_user_db. unfold Db.insert_or_ignore_blocked at 1.
    rewrite bool_decide_eq_true_2; [done|].
    apply insert_or_ignore_blocked_elem. }
  assert (guild (block_user (block_user s cid uid) cid uid)
          = guild (block_user s cid uid)) as Hg.
  { destruct (get_channel (guild s) cid) as [ch|] eqn:Ech;
      [destruct (get_member (guild s) uid) as [mb|] eqn:Em|].
    - assert (is_Some (get_channel (guild (block_user s cid uid)) cid) ∧
              is_Some (get_member (guild (block_user s cid uid)) uid) ∧
              voice_channel_of (guild (block_user s cid uid)) uid ≠ Some cid)
        as (Hch' & Hm' & Hv').
      { rewrite block_user_guild by eauto.
        pose proof (set_permissions_is_Some (guild s) cid uid
                      (overwrite_connect (Some false)) ltac:(eauto)) as Hc.
        unfold get_member in Em.
        case_bool_decide as Hin.
        - repeat split.
          + unfold get_channel in *. by rewrite move_to_channels.
          + apply move_to_is_Some_member. unfold get_member.
            rewrite set_permissions_members. eauto.
          + unfold voice_channel_of, move_to.
            rewrite set_permissions_members, Em. simpl.
            by rewrite lookup_insert_eq.
        - repeat split; [done | |].
          + unfold get_member. rewrite set_permissions_members. eauto.
          + unfold voice_channel_of in *. by rewrite set_permissions_members. }
      rewrite (block_user_guild (block_user s cid uid)) by done.
      rewrite bool_decide_eq_false_2 by done.
      rewrite (block_user_guild s) by eauto.
      case_bool_decide.
      + by rewrite set_permissions_move_to, set_permissions_twice.
      + by rewrite set_permissions_twice.
    - rewrite (block_user_unknown (block_user s cid uid));
        rewrite ?(block_user_unknown s); try done; by right.
    - rewrite (block_user_unknown (block_user s cid uid));
        rewrite ?(block_user_unknown s); try done; by left. }
  destruct (block_user_frame (block_user s cid uid) cid uid) as (Hr2 & Hc2 & Hf2).
  destruct (block_user (block_user s cid uid) cid uid) as [r2 c2 d2 f2 g2].
  destruct (block_user s cid uid) as [r1 c1 d1 f1 g1].
  simpl in *. by subst.
Qed.

Lemma block_user_effect_witness :
  connect_of (guild (block_user state0 100 11)) 100 11 = Some false ∧
  voice_channel_of (guild (block_user state0 100 11)) 11 ≠ Some 100.
Proof.
  destruct (block_user_effect state0 100 11) as (_ & H & _).
  apply H; vm_compute; eauto.
Defined.

Lemma check_invite_cooldown_invites (s s' : State) (ok : bool)
    (now inviter invited : Z) (cid : option Z) :
  Db.user_invites (db_conn s') = Db.user_invites (db_conn s) →
  check_invite_cooldown s' ok now inviter invited cid
    = check_invite_cooldown s ok now inviter invited cid.
Proof.
  intros H. unfold check_invite_cooldown, Db.select_last_invite. by rewrite H.
Qed.

Lemma block_user_channel (s : State) (cid uid : Z) :
  is_Some (get_channel (guild s) cid) →
  is_Some (get_channel (guild (block_user s cid uid)) cid).
Proof.
  intros Hch. destruct (get_member (guild s) uid) as [m|] eqn:Em.
  - rewrite block_user_guild by eauto.
    pose proof (set_permissions_is_Some (guild s) cid uid
                  (overwrite_connect (Some false)) Hch) as Hc.
    case_bool_decide; [|done].
    unfold get_channel in *. by rewrite move_to_channels.
  - rewrite block_user_unknown; [done | by right].
Qed.

Lemma unblock_user_channel (s : State) (cid uid : Z) :
  is_Some (get_channel (guild s) cid) →
  is_Some (get_channel (guild (unblock_user s cid uid)) cid).
Proof.
  intros [ch Hch]. unfold unblock_user. simpl. rewrite Hch.
  destruct (get_member (guild s) uid); simpl.
  - apply set_permissions_is_Some. eauto.
  - rewrite Hch. eauto.
Qed.

(** X19: an invitation does not lift a block.  Once a member is blocked
    on a channel, inviting them is refused with the blocked message and
    changes nothing; after [unblock_user] the same invitation goes
    through. *)
Theorem blocked_member_cannot_be_invited (s : State) (cid actor user : Z)
    (o : InviteObserved) :
  user ≠ actor →
  is_Some (get_channel (guild s) cid) →
  check_invite_cooldown s (inv_query_ok o) (inv_now o) actor user (Some cid)
    = false →
  let sb := block_user s cid user in
  InviteUserModal_on_submit sb cid actor (Some user) o = (sb, [UserIsBlocked]) ∧
  (InviteUserModal_on_submit (unblock_user sb cid user) cid actor (Some user) o).2
    = [InviteSucceeded].
Proof.
  intros Hne Hch Hcd. cbv zeta.
  assert (check_invite_cooldown (block_user s cid user) (inv_query_ok o)
            (inv_now o) actor user (Some cid) = false) as Hcd1.
  { rewrite (check_invite_cooldown_invites s); [done|].
    rewrite block_user_db. unfold Db.insert_or_ignore_blocked.
    by case_bool_decide. }
  pose proof (block_user_channel s cid user Hch) as Hch1.
  split.
  - unfold InviteUserModal_on_submit.
    rewrite bool_decide_eq_false_2 by done. rewrite Hcd1.
    destruct Hch1 as [ch1 ->].
    rewrite bool_decide_eq_true_2; [done|].
    apply blocked_users_listed. rewrite block_user_db.
    apply insert_or_ignore_blocked_elem.
  - rewrite invite_granted; try done.
    + rewrite (check_invite_cooldown_invites (block_user s cid user));
        [done|]. by rewrite unblock_user_db.
    + by apply unblock_user_channel.
    + rewrite blocked_users_listed, unblock_user_db. simpl.
      intros H. by apply list_elem_of_filter in H as [H _].
Qed.

Lemma blocked_member_cannot_be_invited_witness :
  InviteUserModal_on_submit (block_user state0 100 11) 100 10 (Some 11)
    (mkInviteObserved 0 true) = (block_user state0 100 11, [UserIsBlocked]).
Proof.
  destruct (blocked_member_cannot_be_invited state0 100 10 11
              (mkInviteObserved 0 true)) as [H _];
    [discriminate | vm_compute; eauto | reflexivity | exact H].
Defined.

(** ** SetLimit, further *)

Section IntBounds.
Import PyInt.

Lemma lstrip_length (l : list ascii) : (length (lstrip l) ≤ length l)%nat.
Proof.
  induction l as [|a l IH]; simpl; [lia|].
  destruct (is_space a); simpl; lia.
Qed.

Lemma strip_length (l : list ascii) : (length (strip l) ≤ length l)%nat.
Proof.
  unfold strip. rewrite length_rev.
  pose proof (lstrip_length (rev (lstrip l))) as H1.
  pose proof (lstrip_length l) as H2. rewrite length_rev in H1. lia.
Qed.

Lemma string_length_list (text : string) :
  length (list_ascii_of_string text) = String.length text.
Proof. induction text as [|a text IH]; simpl; [done | by rewrite IH]. Qed.

Lemma digits_bound (l : list ascii) (acc : Z) (b : bool) (v : Z) :
  0 ≤ acc → digits acc b l = Some v →
  0 ≤ v ≤ (acc + 1) * 10 ^ Z.of_nat (length l) - 1.
Proof.
  revert acc b v. induction l as [|a l IH]; intros acc b v Hacc H.
  - simpl in *. destruct b; [|done]. injection H as <-. lia.
  - cbn [digits] in H. cbn [length].
    rewrite Nat2Z.inj_succ, Z.pow_succ_r by lia.
    assert (0 < 10 ^ Z.of_nat (length l)) as Hp by (apply Z.pow_pos_nonneg; lia).
    destruct (code a =? 95).
    + destruct b; [|done]. apply IH in H; [|lia]. nia.
    + unfold digit_of in H.
      destruct ((48 <=? code a) && (code a <=? 57)) eqn:E; [|done].
      apply andb_true_iff in E as [E1 E2].
      apply Z.leb_le in E1, E2. apply IH in H; [|lia]. nia.
Qed.

(** A text of at most two characters that [int] reads denotes a number
    from -9 to 99. *)
Lemma int_two_characters (text : string) (v : Z) :
  (String.length text ≤ 2)%nat → int text = Some v → -9 ≤ v ≤ 99.
Proof.
  intros Hlen. unfold int.
  pose proof (strip_length (list_ascii_of_string text)) as Hs.
  rewrite string_length_list in Hs.
  destruct (strip (list_ascii_of_string text)) as [|a r]; [done|].
  simpl in Hs.
  assert (∀ k w : Z, 0 ≤ k ≤ 2 → 0 ≤ w ≤ (0 + 1) * 10 ^ k - 1 →
                     0 ≤ w ≤ 10 ^ k - 1) as Hw by (intros; lia).
  destruct (code a =? 45); [|destruct (code a =? 43)].
  - destruct (digits 0 false r) as [w|] eqn:E; [|done]. intros [= <-].
    apply digits_bound in E; [|lia].
    assert (10 ^ Z.of_nat (length r) ≤ 10 ^ 1)
      by (apply Z.pow_le_mono_r; lia). lia.
  - intros E. apply digits_bound in E; [|lia].
    assert (10 ^ Z.of_nat (length r) ≤ 10 ^ 1)
      by (apply Z.pow_le_mono_r; lia). lia.
  - intros E. apply digits_bound in E; [|lia].
    assert (10 ^ Z.of_nat (length (a :: r)) ≤ 10 ^ 2)
      by (apply Z.pow_le_mono_r; simpl; lia). lia.
Qed.
End IntBounds.

(** X20: on ASCII text of at most two characters, the length the field of
    the modal allows, the limit modal applies every value from 0 to 99 to
    the channel it was opened for, 0 being answered as the removal of the
    limit, and changes nothing else: overwrites, other channels, members,
    registry and store are as before.  It does not look at the registry,
    so it acts the same whoever submits it.  A parsed value outside the
    range, which on such text is one from -9 to -1, is dropped without any
    answer, and text that is not a number is answered with the validation
    message. *)
Theorem limit_modal_effect (s : State) (cid : Z) (text : string) :
  ascii_text text →
  (String.length text ≤ 2)%nat →
  let r := LimitMembersModal_on_submit s cid text in
  (∀ v ch, PyInt.int text = Some v → 0 ≤ v ≤ 99 →
           get_channel (guild s) cid = Some ch →
           get_channel (guild r.1) cid = Some (mkVoiceChannel v (overwrites ch)) ∧
           r.2 = [if v =? 0 then LimitRemoved else LimitSet v]) ∧
  (∀ v, PyInt.int text = Some v → v < 0 ∨ 99 < v →
        r = (s, []) ∧ -9 ≤ v ≤ -1) ∧
  (PyInt.int text = None → r = (s, [EnterValidNumber])) ∧
  (∀ c, c ≠ cid → get_channel (guild r.1) c = get_channel (guild s) c) ∧
  members (guild r.1) = members (guild s) ∧
  voice_channels r.1 = voice_channels s ∧
  db_conn r.1 = db_conn s ∧
  (∀ reg, LimitMembersModal_on_submit (set_registry s reg) cid text
            = (set_registry r.1 reg, r.2)).
Proof.
  intros _ Hlen. cbv zeta. unfold LimitMembersModal_on_submit.
  destruct (PyInt.int text) as [v|] eqn:Ev; [|by repeat split].
  pose proof (int_two_characters text v Hlen Ev) as Hv2.
  case_bool_decide as Hr.
  { split; [intros v' ch [= <-] Hv; lia|].
    split; [intros v' [= <-] Hv'; split; [done | lia]|]. by repeat split. }
  destruct (get_channel (guild s) cid) as [ch|] eqn:Ech.
  - assert ((if v =? 0 then 0 else v) = v) as Hv.
    { destruct (v =? 0) eqn:E; [|done]. apply Z.eqb_eq in E. lia. }
    simpl. rewrite Ech, Hv. unfold edit_user_limit, get_channel in *.
    rewrite Ech. simpl.
    split; [intros v' ch' [= <-] _ [= <-]; split;
              [by rewrite lookup_insert_eq | done] |].
    split; [intros v' [= <-] Hv'; exfalso; apply Hr; lia|].
    split; [done|].
    split; [intros c Hc; by rewrite lookup_insert_ne|].
    by repeat split.
  - simpl. rewrite Ech.
    split; [intros v' ch' _ _ H; discriminate H|].
    split; [intros v' [= <-] Hv'; exfalso; apply Hr; lia|].
    by repeat split.
Qed.

Lemma limit_modal_effect_witness :
  get_channel (guild (LimitMembersModal_on_submit state0 100 "07").1) 100
    = Some (mkVoiceChannel 7 ∅).
Proof.
  destruct (limit_modal_effect state0 100 "07") as (H & _);
    [repeat constructor | simpl; lia |].
  destruct (H 7 (mkVoiceChannel 0 ∅)) as [H' _];
    [reflexivity | lia | reflexivity | exact H'].
Defined.

(** ** Cooldown tracker, further *)

(** X21: the cooldown of a member is theirs alone and is counted from
    their last admitted attempt.  A check for one member never changes the
    entry of another, nor anything outside the cooldown map; and an
    attempt turned away inside the window does not restart it: the first
    attempt made a full cooldown after the admitted one is admitted,
    however recent the refused one. *)
Theorem cooldown_window_is_fixed (s : State) (user : Z) :
  (∀ now other, other ≠ user →
     cooldowns (is_on_cooldown s user now).2 !! other = cooldowns s !! other) ∧
  (∀ now, voice_channels (is_on_cooldown s user now).2 = voice_channels s ∧
          db_conn (is_on_cooldown s user now).2 = db_conn s ∧
          guild (is_on_cooldown s user now).2 = guild s) ∧
  (∀ t0 t1 t2,
     (is_on_cooldown s user t0).1 = false →
     t1 - t0 < cooldown_time (config s) →
     cooldown_time (config s) ≤ t2 - t0 →
     let s0 := (is_on_cooldown s user t0).2 in
     let s1 := (is_on_cooldown s0 user t1).2 in
     (is_on_cooldown s0 user t1).1 = true ∧ s1 = s0 ∧
     (is_on_cooldown s1 user t2).1 = false).
Proof.
  split; [|split].
  - intros now other Hne. unfold is_on_cooldown.
    destruct (cooldowns s !! user); [case_bool_decide|]; simpl;
      rewrite ?lookup_insert_ne by done; done.
  - intros now. by destruct (is_on_cooldown_frame s user now) as (? & ? & ? & _).
  - intros t0 t1 t2 Hadm Hlt Hle. cbv zeta.
    destruct (is_on_cooldown s user t0) as [b s0] eqn:E0. simpl in Hadm. subst b.
    pose proof (is_on_cooldown_admitted_stamp _ _ _ _ E0) as Hst.
    pose proof (is_on_cooldown_frame s user t0) as Hfr. rewrite E0 in Hfr.
    destruct Hfr as (_ & _ & _ & Hcfg). simpl in *.
    rewrite (is_on_cooldown_denied s0 user t1 t0) by (by rewrite ?Hcfg).
    simpl. split; [done|]. split; [done|].
    rewrite (is_on_cooldown_elapsed s0 user t2 t0) by (by rewrite ?Hcfg).
    done.
Qed.

Lemma cooldown_window_is_fixed_witness :
  let s0 := (is_on_cooldown state0 12 10).2 in
  let s1 := (is_on_cooldown s0 12 14).2 in
  (is_on_cooldown s0 12 14).1 = true ∧ s1 = s0 ∧
  (is_on_cooldown s1 12 15).1 = false.
Proof.
  destruct (cooldown_window_is_fixed state0 12) as (_ & _ & H).
  apply (H 10 14 15); [reflexivity | vm_compute; reflexivity
                      | vm_compute; discriminate].
Defined.

(** ** Kick and lock, further *)

(** X22: a kick moves the chosen member out only when that member is in
    the channel of the menu; otherwise the actor is told so and nothing
    changes.  A kick never touches rights, store or registry, so the
    kicked member keeps the connect right they had and nobody else is
    moved. *)
Theorem kick_effect (s : State) (cid actor target : Z) :
  let r := MemberSelectView_select_callback s cid ActKick actor target in
  (is_Some (get_channel (guild s) cid) →
   voice_channel_of (guild s) target = Some cid →
   voice_channel_of (guild r.1) target = None) ∧
  (is_Some (get_channel (guild s) cid) →
   is_Some (get_member (guild s) target) →
   voice_channel_of (guild s) target ≠ Some cid →
   r = (s, [NotInYourChannel])) ∧
  channels (guild r.1) = channels (guild s) ∧
  (∀ m, m ≠ target →
        voice_channel_of (guild r.1) m = voice_channel_of (guild s) m) ∧
  voice_channels r.1 = voice_channels s ∧
  db_conn r.1 = db_conn s.
Proof.
  cbv zeta. unfold MemberSelectView_select_callback.
  destruct (get_channel (guild s) cid) as [ch|] eqn:Ech.
  - destruct (get_member (guild s) target) as [m|] eqn:Em.
    + unfold get_member in Em. unfold voice_channel_of at 1 3. rewrite Em.
      simpl. case_bool_decide as Hv; simpl.
      * split; [intros _ _; unfold voice_channel_of, move_to; rewrite Em; simpl;
                by rewrite lookup_insert_eq|].
        split; [intros _ _ Hn; done|].
        split; [apply move_to_channels|].
        split; [|done]. intros m' Hne. unfold voice_channel_of, move_to.
        rewrite Em. simpl. by rewrite lookup_insert_ne.
      * split; [intros _ Hn; done|]. by repeat split.
    + unfold get_member in Em. unfold voice_channel_of at 1 3. rewrite Em.
      simpl. split; [intros _ H; discriminate H|].
      split; [intros _ [? H]; discriminate H|]. by repeat split.
  - simpl. split; [intros [? H]; discriminate H|].
    split; [intros [? H]; discriminate H|]. by repeat split.
Qed.

Lemma kick_effect_witness :
  voice_channel_of
    (guild (MemberSelectView_select_callback state0 100 ActKick 10 11).1) 11
    = None.
Proof.
  destruct (kick_effect state0 100 10 11) as (H & _).
  apply H; [vm_compute; eauto | reflexivity].
Defined.

(** X23: the lock only concerns the default role.  Toggling it leaves the
    overwrite of every member as it was, so a member who was invited keeps
    the granted connect right on a locked channel and a blocked member
    stays denied on an unlocked one. *)
Theorem lock_keeps_member_rights (s : State) (cid target : Z) :
  target ≠ default_role (guild s) →
  overwrite_of (guild (toggle_lock s cid).1) cid target
    = overwrite_of (guild s) cid target ∧
  connect_of (guild (toggle_lock s cid).1) cid target
    = connect_of (guild s) cid target.
Proof.
  intros Hne.
  assert (overwrite_of (guild (toggle_lock s cid).1) cid target
          = overwrite_of (guild s) cid target) as H.
  { unfold toggle_lock. destruct (get_channel (guild s) cid) as [ch|] eqn:E;
      [|done]. simpl.
    rewrite set_permissions_overwrite_of by eauto. by rewrite decide_False. }
  split; [exact H|].
  unfold overwrite_of, connect_of in *.
  destruct (get_channel (guild (toggle_lock s cid).1) cid),
           (get_channel (guild s) cid); simpl in *; congruence.
Qed.

Lemma lock_keeps_member_rights_witness :
  let s1 := (InviteUserModal_on_submit state0 100 10 (Some 12)
               (mkInviteObserved 0 true)).1 in
  connect_of (guild (toggle_lock s1 100).1) 100 12 = Some true ∧
  locked (guild (toggle_lock s1 100).1) 100.
Proof.
  cbv zeta. split; [|vm_compute; reflexivity].
  destruct (lock_keeps_member_rights
              (InviteUserModal_on_submit state0 100 10 (Some 12)
                 (mkInviteObserved 0 true)).1 100 12) as [_ H];
    [vm_compute; discriminate |].
  rewrite H. vm_compute. reflexivity.
Defined.

(** ** Configuration file *)

Section ConfigMerge.
Import JsonConfig.
Variable defaults : gmap string Json.

Lemma merge_fold_lookup (config : gmap string Json) (k : string) :
  (map_fold merge_step (defaults, defaults) config).1 !! k
    = merged_entry (config !! k) (defaults !! k) ∧
  (map_fold merge_step (defaults, defaults) config).2 !! k
    = default_entry_after (config !! k) (defaults !! k).
Proof.
  revert k.
  apply (map_fold_weak_ind
           (λ r m, ∀ k, r.1 !! k = merged_entry (m !! k) (defaults !! k) ∧
                        r.2 !! k = default_entry_after (m !! k) (defaults !! k))).
  - intros k. by rewrite lookup_empty.
  - intros i x m r Hi IH k.
    destruct (IH i) as [Hi1 Hi2]. rewrite Hi in Hi1, Hi2. simpl in Hi1, Hi2.
    destruct (decide (k = i)) as [->|Hne].
    + rewrite lookup_insert_eq. unfold merge_step. rewrite Hi1.
      destruct x as [| | | | |v]; simpl; rewrite ?lookup_insert_eq;
        try (split; [done | exact Hi2]).
      destruct (defaults !! i) as [[| | | | |d]|]; simpl;
        rewrite ?lookup_insert_eq; try (split; [done | exact Hi2]).
      done.
    + rewrite lookup_insert_ne by done. destruct (IH k) as [Hk1 Hk2].
      unfold merge_step.
      destruct x as [| | | | |v]; simpl; rewrite ?lookup_insert_ne by done;
        try done.
      destruct (r.1 !! i) as [[| | | | |d]|]; simpl;
        rewrite ?lookup_insert_ne by done; done.
Qed.
End ConfigMerge.

(** X24: [load_config] merges the file into the defaults one level deep.
    A key absent from the file keeps its default; a key whose value in the
    file and in the defaults are both dictionaries gets the default
    dictionary updated with the entries of the file, an entry of the file
    replacing the default one whole; any other key of the file takes the
    value of the file.  Without a readable dictionary the defaults are
    returned, and the file is written only when it does not exist. *)
Theorem load_config_merge (defaults : gmap string JsonConfig.Json)
    (config : gmap string JsonConfig.Json) :
  let r := JsonConfig.load_config defaults
             (JsonConfig.Parsed (JsonConfig.JDict config)) in
  (∀ k, config !! k = None →
        JsonConfig.returned r !! k = defaults !! k) ∧
  (∀ k v m, config !! k = Some (JsonConfig.JDict v) →
            defaults !! k = Some (JsonConfig.JDict m) →
            JsonConfig.returned r !! k = Some (JsonConfig.JDict (v ∪ m)) ∧
            (∀ j x, v !! j = Some x → (v ∪ m) !! j = Some x) ∧
            (∀ j, v !! j = None → (v ∪ m) !! j = m !! j)) ∧
  (∀ k x, config !! k = Some x →
          (∀ v, x ≠ JsonConfig.JDict v) ∨
            (∀ m, defaults !! k ≠ Some (JsonConfig.JDict m)) →
          JsonConfig.returned r !! k = Some x) ∧
  JsonConfig.file_written r = false ∧
  (∀ file, (∀ c, file ≠ JsonConfig.Parsed (JsonConfig.JDict c)) →
           JsonConfig.returned (JsonConfig.load_config defaults file) = defaults ∧
           (JsonConfig.file_written (JsonConfig.load_config defaults file) = true
            ↔ file = JsonConfig.NoFile)).
Proof.
  cbv zeta. unfold JsonConfig.load_config at 1 2 3 4. simpl.
  split; [|split; [|split; [|split]]].
  - intros k Hk. destruct (merge_fold_lookup defaults config k) as [H _].
    rewrite H, Hk. done.
  - intros k v m Hk Hd. destruct (merge_fold_lookup defaults config k) as [H _].
    rewrite H, Hk, Hd. simpl. split; [done|]. split.
    + intros j x Hj. by apply lookup_union_Some_l.
    + intros j Hj. by apply lookup_union_r.
  - intros k x Hk Hnot. destruct (merge_fold_lookup defaults config k) as [H _].
    rewrite H, Hk. destruct x as [| | | | |v]; try done. simpl.
    destruct Hnot as [Hx|Hd]; [by destruct (Hx v)|].
    destruct (defaults !! k) as [[| | | | |d]|]; try done.
    by destruct (Hd d).
  - done.
  - intros file Hfile. destruct file as [| |[| | | | |c]]; simpl;
      try (split; [done|]; split; done).
    by destruct (Hfile c).
Qed.

Lemma load_config_merge_witness :
  JsonConfig.returned
    (JsonConfig.load_config JsonConfig.sample_defaults JsonConfig.sample_file)
    !! "interface"
  = Some (JsonConfig.JDict {[ "title" := JsonConfig.JStr "Voice";
                              "color" := JsonConfig.JStr "red" ]}) ∧
  JsonConfig.returned
    (JsonConfig.load_config JsonConfig.sample_defaults JsonConfig.sample_file)
    !! "cooldown_time" = Some (JsonConfig.JInt 9).
Proof.
  destruct (load_config_merge JsonConfig.sample_defaults
              {[ "cooldown_time" := JsonConfig.JInt 9;
                 "interface" := JsonConfig.JDict
                                  {[ "color" := JsonConfig.JStr "red" ]} ]})
    as (_ & H2 & H3 & _).
  split.
  - destruct (H2 "interface" {[ "color" := JsonConfig.JStr "red" ]}
                {[ "title" := JsonConfig.JStr "Voice";
                   "color" := JsonConfig.JStr "blurple" ]}) as [H _];
      [reflexivity | reflexivity |].
    unfold JsonConfig.sample_file. rewrite H. vm_compute. reflexivity.
  - apply H3; [reflexivity|]. left. discriminate.
Defined.

(** X25: the defaults do not survive a merge.  Because the copy is
    shallow, a nested section that the file overrides is updated inside
    [DEFAULT_CONFIG] itself: after the call the global holds the merged
    section, every other entry being as before, and a later call that
    falls back to the defaults returns the overridden section. *)
Theorem load_config_changes_defaults (defaults : gmap string JsonConfig.Json)
    (config : gmap string JsonConfig.Json) :
  let r := JsonConfig.load_config defaults
             (JsonConfig.Parsed (JsonConfig.JDict config)) in
  (∀ k v m, config !! k = Some (JsonConfig.JDict v) →
            defaults !! k = Some (JsonConfig.JDict m) →
            JsonConfig.defaults_after r !! k = Some (JsonConfig.JDict (v ∪ m)) ∧
            JsonConfig.returned
              (JsonConfig.load_config (JsonConfig.defaults_after r)
                 JsonConfig.Unreadable) !! k
              = Some (JsonConfig.JDict (v ∪ m))) ∧
  (∀ k, (∀ v, config !! k ≠ Some (JsonConfig.JDict v)) ∨
          (∀ m, defaults !! k ≠ Some (JsonConfig.JDict m)) →
        JsonConfig.defaults_after r !! k = defaults !! k).
Proof.
  cbv zeta. unfold JsonConfig.load_config. simpl. split.
  - intros k v m Hk Hd. destruct (merge_fold_lookup defaults config k) as [_ H].
    rewrite H, Hk, Hd. done.
  - intros k Hnot. destruct (merge_fold_lookup defaults config k) as [_ H].
    rewrite H. destruct (config !! k) as [[| | | | |v]|]; try done. simpl.
    destruct Hnot as [Hx|Hd]; [by destruct (Hx v)|].
    destruct (defaults !! k) as [[| | | | |d]|]; try done.
    by destruct (Hd d).
Qed.

Lemma load_config_changes_defaults_witness :
  JsonConfig.defaults_after
    (JsonConfig.load_config JsonConfig.sample_defaults JsonConfig.sample_file)
    !! "interface"
  ≠ JsonConfig.sample_defaults !! "interface".
Proof.
  destruct (load_config_changes_defaults JsonConfig.sample_defaults
              {[ "cooldown_time" := JsonConfig.JInt 9;
                 "interface" := JsonConfig.JDict
                                  {[ "color" := JsonConfig.JStr "red" ]} ]})
    as (H & _).
  destruct (H "interface" {[ "color" := JsonConfig.JStr "red" ]}
              {[ "title" := JsonConfig.JStr "Voice";
                 "color" := JsonConfig.JStr "blurple" ]}) as [H' _];
    [reflexivity | reflexivity |].
  unfold JsonConfig.sample_file. rewrite H'.
  intros E. vm_compute in E. discriminate E.
Defined.
